(** * Analog Vibes: the Discogs synchronisation pipeline

    A shallow embedding of the services behind the collection sync
    ([dataTransform], [cacheService], [discogsService], [syncService])
    and the properties of the pipeline that the specification states. *)

From Stdlib Require Import ZArith NArith Lia Bool Ascii String DecimalString.
From Stdlib Require DecimalPos DecimalZ.
From stdpp Require Import base option list gmap.

Local Open Scope N_scope.

(** ** JavaScript strings

    A JavaScript string is a sequence of UTF-16 code units.  The regular
    expressions of the source carry no [u] flag, so every class below is
    a predicate on one code unit. *)

Module JsString.

Definition char := N.
Definition jsstring := list char.

(** Code units of an ASCII literal. *)
Definition js (s : string) : jsstring :=
  List.map N_of_ascii (list_ascii_of_string s).

(** [\s] (and the characters [String.prototype.trim] strips): WhiteSpace
    and LineTerminator of ECMAScript. *)
Definition isSpace (c : char) : bool :=
  ((9 <=? c) && (c <=? 13)) || (c =? 32) || (c =? 160) || (c =? 5760)
  || ((8192 <=? c) && (c <=? 8202)) || (c =? 8232) || (c =? 8233)
  || (c =? 8239) || (c =? 8287) || (c =? 12288) || (c =? 65279).

(** [\d] *)
Definition isDigit (c : char) : bool := (48 <=? c) && (c <=? 57).

(** [\w] = [A-Za-z0-9_] *)
Definition isWord (c : char) : bool :=
  isDigit c || ((65 <=? c) && (c <=? 90)) || (c =? 95)
  || ((97 <=? c) && (c <=? 122)).

(** ASCII case folding; it is all that the case-insensitive tests of the
    source need, their patterns being ASCII letters that no other code
    unit folds to. *)
Definition toLowerAscii (c : char) : char :=
  if (65 <=? c) && (c <=? 90) then c + 32 else c.

Definition toLowerCase (s : jsstring) : jsstring := List.map toLowerAscii s.

Definition eqb (a b : jsstring) : bool := bool_decide (a = b).

(** Truthiness of a string: it is not empty. *)
Definition truthy (s : jsstring) : bool :=
  match s with [] => false | _ :: _ => true end.

(** [a || b] on strings. *)
Definition orElse (a b : jsstring) : jsstring := if truthy a then a else b.

(** Longest prefix whose code units satisfy [p], and what follows it. *)
Fixpoint span (p : char -> bool) (s : jsstring) : jsstring * jsstring :=
  match s with
  | [] => ([], [])
  | c :: t => if p c then let '(a, b) := span p t in (c :: a, b) else ([], s)
  end.

Definition trimStart (s : jsstring) : jsstring := snd (span isSpace s).

Definition trimEnd (s : jsstring) : jsstring := rev (trimStart (rev s)).

Definition trim (s : jsstring) : jsstring := trimEnd (trimStart s).

(** [s.replace(/re/g, ...)]: [m] matches the pattern at the head of its
    argument and answers the replacement text and the length of the
    match (never 0 here); the scan resumes after the match, and a
    position where the pattern does not match is copied.  [skip] counts
    the code units of the current match still to be passed over. *)
Fixpoint replaceAll (m : jsstring -> option (jsstring * nat)) (skip : nat)
    (s : jsstring) : jsstring :=
  match s with
  | [] => []
  | c :: t =>
      match skip with
      | S k => replaceAll m k t
      | O =>
          match m s with
          | Some (rep, len) => rep ++ replaceAll m (Nat.pred len) t
          | None => c :: replaceAll m 0 t
          end
      end
  end.

Definition replace (m : jsstring -> option (jsstring * nat)) (s : jsstring) :=
  replaceAll m 0 s.

(** [s.includes(sub)] *)
Fixpoint isPrefix (p s : jsstring) : bool :=
  match p, s with
  | [], _ => true
  | _ :: _, [] => false
  | a :: p', b :: s' => (a =? b) && isPrefix p' s'
  end.

Fixpoint includes (sub s : jsstring) : bool :=
  isPrefix sub s || match s with [] => false | _ :: t => includes sub t end.

(** [n.toString()] of an integer. *)
Definition toString (n : Z) : jsstring :=
  js (NilZero.string_of_int (Z.to_int n)).

(** [parts.join(sep)] *)
Fixpoint join (sep : jsstring) (parts : list jsstring) : jsstring :=
  match parts with
  | [] => []
  | [p] => p
  | p :: rest => p ++ sep ++ join sep rest
  end.

End JsString.

Import JsString.

(** ** dataTransform: text cleaning *)

Module DataTransform.

Definition LBRACKET : char := 91.
Definition RBRACKET : char := 93.
Definition EQUALS : char := 61.
Definition SPACE : char := 32.

Definition notRBracket (c : char) : bool := negb (c =? RBRACKET).

(** [([^\]]+)\]] at the head of [s]: the captured text and its length.
    The class excludes the bracket that must follow, so the greedy run
    is the only candidate. *)
Definition captureToBracket (s : jsstring) : option jsstring :=
  match span notRBracket s with
  | ((_ :: _) as run, _ :: _) => Some run
  | _ => None
  end.

(** [/\[k=([^\]]+)\]/] with [k] one letter *)
Definition matchTag (k : char) (s : jsstring) : option (jsstring * nat) :=
  match s with
  | b :: k' :: e :: rest =>
      if (b =? LBRACKET) && (k' =? k) && (e =? EQUALS) then
        match captureToBracket rest with
        | Some run => Some (run, (4 + length run)%nat)
        | None => None
        end
      else None
  | _ => None
  end.

(** [/\[\w+=([^\]]+)\]/] *)
Definition matchAnyTag (s : jsstring) : option (jsstring * nat) :=
  match s with
  | b :: rest =>
      if b =? LBRACKET then
        match span isWord rest with
        | ((_ :: _) as key, e :: rest') =>
            if e =? EQUALS then
              match captureToBracket rest' with
              | Some run => Some (run, (3 + length key + length run)%nat)
              | None => None
              end
            else None
        | _ => None
        end
      else None
  | [] => None
  end.

(** [/\[\]/] *)
Definition matchEmptyBrackets (s : jsstring) : option (jsstring * nat) :=
  match s with
  | b :: e :: _ =>
      if (b =? LBRACKET) && (e =? RBRACKET) then Some ([], 2%nat) else None
  | _ => None
  end.

Definition cleanDiscogsMarkup (text : jsstring) : jsstring :=
  if negb (truthy text) then []
  else
    replace matchEmptyBrackets
      (replace matchAnyTag
         (replace (matchTag 109)        (* [m=...] *)
            (replace (matchTag 114)     (* [r=...] *)
               (replace (matchTag 97)   (* [a=...] *)
                  (replace (matchTag 108) text))))).   (* [l=...] *)

(** [/\s+/] *)
Definition matchSpaces (s : jsstring) : option (jsstring * nat) :=
  match span isSpace s with
  | ((_ :: _) as run, _) => Some ([SPACE], length run)
  | _ => None
  end.

(** The punctuation that the last replacement of [cleanText] leaves in
    place next to [\w] and [\s]: hyphen, full stop, comma, exclamation
    and question marks, parentheses, ampersand, double and single quote. *)
Definition isPunct (c : char) : bool :=
  (c =? 45) || (c =? 46) || (c =? 44) || (c =? 33) || (c =? 63)
  || (c =? 40) || (c =? 41) || (c =? 38) || (c =? 34) || (c =? 39).

Definition allowed (c : char) : bool := isWord c || isSpace c || isPunct c.

Definition MAX_TEXT : nat := 1000.

Definition cleanText (text : jsstring) : jsstring :=
  if negb (truthy text) then []
  else
    take MAX_TEXT
      (List.filter allowed
         (replace matchSpaces (trim (cleanDiscogsMarkup text)))).

(** *** Discogs payloads ([discogsService]) and the domain records

    Optional fields of the interfaces are [option]s; a number is an
    integer, truthy when it is not 0. *)

Record DiscogsArtist := { artist_name : jsstring; artist_id : Z }.

Record DiscogsExtraArtist :=
  { extra_name : jsstring; extra_role : jsstring; extra_id : Z }.

Record DiscogsLabel := { label_name : jsstring; label_catno : jsstring }.

Record DiscogsImage :=
  { image_type : jsstring; image_uri : jsstring;
    image_uri150 : jsstring; image_uri500 : jsstring }.

Record DiscogsTrack :=
  { track_position : jsstring; track_title : jsstring;
    track_duration : jsstring }.

Record DiscogsFormat :=
  { format_name : jsstring; format_qty : jsstring;
    format_descriptions : option (list jsstring) }.

Record BasicInformation :=
  { bi_id : Z; bi_title : jsstring; bi_year : Z; bi_master_id : option Z;
    bi_thumb : jsstring; bi_cover_image : jsstring;
    bi_formats : list DiscogsFormat; bi_labels : list DiscogsLabel;
    bi_artists : list DiscogsArtist; bi_genres : list jsstring;
    bi_styles : option (list jsstring) }.

(** [country] and [formats] are the properties that the transformation
    reads through its [any] casts. *)
Record DiscogsRelease :=
  { rel_id : Z; rel_title : jsstring; rel_artists : list DiscogsArtist;
    rel_year : option Z; rel_labels : option (list DiscogsLabel);
    rel_genres : option (list jsstring); rel_styles : option (list jsstring);
    rel_images : option (list DiscogsImage);
    rel_tracklist : option (list DiscogsTrack);
    rel_master_id : option Z; rel_notes : option jsstring;
    rel_extraartists : option (list DiscogsExtraArtist);
    rel_country : option jsstring; rel_formats : option (list DiscogsFormat);
    basic_information : option BasicInformation }.

Record DiscogsMasterRelease :=
  { master_id : Z; master_title : jsstring; master_year : option Z;
    master_artists : list DiscogsArtist; master_genres : option (list jsstring);
    master_notes : option jsstring;
    master_extraartists : option (list DiscogsExtraArtist) }.

Module Track.
Record t := { number : Z; title : jsstring; duration : jsstring }.
End Track.

Record MasterRelease :=
  { mr_id : jsstring; mr_title : jsstring; mr_artist : jsstring;
    mr_genres : list jsstring; mr_description : jsstring;
    mr_producer : option jsstring; mr_recordingDate : option jsstring }.

Record VinylRelease :=
  { vr_id : jsstring; vr_releaseDate : jsstring; vr_label : jsstring;
    vr_catalogNumber : jsstring; vr_coverUrl : jsstring;
    vr_tracks : list Track.t; vr_masterId : jsstring }.

Module VinylRecord.
Record t :=
  { id : jsstring; title : jsstring; artist : jsstring; year : jsstring;
    label : jsstring; genres : list jsstring; catalogNumber : jsstring;
    coverUrl : jsstring; tracks : list Track.t; description : jsstring;
    producer : option jsstring; recordingDate : option jsstring;
    releaseDate : jsstring;
    _masterRelease : option MasterRelease;
    _vinylRelease : option VinylRelease }.
End VinylRecord.

(** What [Date.now()] and the calls of [Math.random()] answer during one
    transformation: [randomFloor o i k] is [Math.floor(Math.random() * k)]
    at the [i]-th call. *)
Record Oracle := { dateNow : Z; randomRaw : nat -> Z }.

Definition randomFloor (o : Oracle) (i : nat) (k : Z) : Z :=
  Z.modulo (randomRaw o i) k.

Definition numTruthy (n : Z) : bool := negb (Z.eqb n 0).

Definition optNumTruthy (n : option Z) : option Z :=
  match n with Some v => if numTruthy v then Some v else None | None => None end.

Definition optStrTruthy (s : option jsstring) : option jsstring :=
  match s with Some v => if truthy v then Some v else None | None => None end.

(** [discogsRelease.basic_information || discogsRelease], as far as the
    transformation reads it. *)
Record ReleaseData :=
  { rd_id : Z; rd_title : jsstring; rd_year : option Z;
    rd_labels : option (list DiscogsLabel); rd_artists : list DiscogsArtist;
    rd_genres : option (list jsstring); rd_styles : option (list jsstring);
    rd_formats : option (list DiscogsFormat) }.

Definition releaseDataOf (r : DiscogsRelease) : ReleaseData :=
  match basic_information r with
  | Some bi =>
      {| rd_id := bi_id bi; rd_title := bi_title bi; rd_year := Some (bi_year bi);
         rd_labels := Some (bi_labels bi); rd_artists := bi_artists bi;
         rd_genres := Some (bi_genres bi); rd_styles := bi_styles bi;
         rd_formats := Some (bi_formats bi) |}
  | None =>
      {| rd_id := rel_id r; rd_title := rel_title r; rd_year := rel_year r;
         rd_labels := rel_labels r; rd_artists := rel_artists r;
         rd_genres := rel_genres r; rd_styles := rel_styles r;
         rd_formats := rel_formats r |}
  end.

Definition artistNames (artists : list DiscogsArtist) : jsstring :=
  match artists with
  | [] => js "Unknown Artist"
  | _ :: _ => join (js ", ") (List.map artist_name artists)
  end.

(** [g && g.trim() && g !== 'Unknown'] *)
Definition validGenre (g : jsstring) : bool :=
  truthy g && truthy (trim g) && negb (eqb g (js "Unknown")).

Definition resolveGenres (genres : option (list jsstring)) : list jsstring :=
  match List.filter validGenre (default [] genres) with
  | [] => [js "Unknown"]
  | valid => valid
  end.

(** [extraartists.find(a => a.role && a.role.toLowerCase().includes('producer'))?.name] *)
Definition isProducer (a : DiscogsExtraArtist) : bool :=
  truthy (extra_role a) && includes (js "producer") (toLowerCase (extra_role a)).

Definition findProducer (extra : option (list DiscogsExtraArtist)) : option jsstring :=
  match extra with
  | Some l => option_map extra_name (List.find isProducer l)
  | None => None
  end.

Definition transformDiscogsMasterRelease (discogsMaster : DiscogsMasterRelease)
    : MasterRelease :=
  let artist := artistNames (master_artists discogsMaster) in
  let masterYear :=
    match master_year discogsMaster with
    | Some y => if numTruthy y && Z.ltb 0 y then Some (toString y) else None
    | None => None
    end in
  {| mr_id := toString (master_id discogsMaster);
     mr_title := orElse (master_title discogsMaster) (js "Unknown Title");
     mr_artist := artist;
     mr_genres := resolveGenres (master_genres discogsMaster);
     mr_description :=
       match optStrTruthy (master_notes discogsMaster) with
       | Some notes => cleanText notes
       | None =>
           js "A classic release by " ++ artist
           ++ match masterYear with
              | Some y => js " from " ++ y
              | None => []
              end
           ++ js "."
       end;
     mr_producer := findProducer (master_extraartists discogsMaster);
     mr_recordingDate := masterYear |}.

(** [n.toString().padStart(2, '0')] *)
Definition pad2 (n : Z) : jsstring :=
  let s := toString n in
  if Nat.ltb (length s) 2 then js "0" ++ s else s.

Definition formatDuration (seconds : Z) : jsstring :=
  toString (Z.div seconds 60) ++ js ":" ++ pad2 (Z.modulo seconds 60).

(** [getRandomDuration()] at the [i]-th call of [Math.random()] *)
Definition getRandomDuration (o : Oracle) (i : nat) : Z :=
  (randomFloor o i (510 - 150 + 1) + 150)%Z.

Definition genericTrackNames : list jsstring :=
  [js "Opening"; js "Melody"; js "Interlude"; js "Rhythm"; js "Finale";
   js "Theme"; js "Variation"; js "Coda"].

(** The [forEach] over the tracklist: [trackIndex] counts the entries,
    [calls] the calls of [Math.random()] made so far. *)
Fixpoint tracksOfTracklist (o : Oracle) (trackIndex : Z) (calls : nat)
    (l : list DiscogsTrack) : list Track.t :=
  match l with
  | [] => []
  | t :: rest =>
      if truthy (track_title t) && truthy (trim (track_title t)) then
        if truthy (track_duration t) then
          {| Track.number := (trackIndex + 1)%Z; Track.title := trim (track_title t);
             Track.duration := track_duration t |}
          :: tracksOfTracklist o (trackIndex + 1)%Z calls rest
        else
          {| Track.number := (trackIndex + 1)%Z; Track.title := trim (track_title t);
             Track.duration := formatDuration (getRandomDuration o calls) |}
          :: tracksOfTracklist o (trackIndex + 1)%Z (S calls) rest
      else tracksOfTracklist o (trackIndex + 1)%Z calls rest
  end.

(** The loop [for (let i = 1; i <= trackCount; i++)]; the first call of
    [Math.random()] has chosen [trackCount]. *)
Fixpoint placeholderTracks (o : Oracle) (i : nat) (remaining : nat) : list Track.t :=
  match remaining with
  | O => []
  | S n =>
      {| Track.number := Z.of_nat i;
         Track.title :=
           match genericTrackNames !! (i - 1)%nat with
           | Some name => name
           | None => js "Movement " ++ toString (Z.of_nat i)
           end;
         Track.duration := formatDuration (getRandomDuration o i) |}
      :: placeholderTracks o (S i) n
  end.

Definition FALLBACK_COVER_PREFIX : jsstring :=
  js "https://images.unsplash.com/photo-1571974599782-87624638275d?w=400&h=400&fit=crop&auto=format&q=80&hue=".

Definition pickCover (r : DiscogsRelease) : jsstring :=
  match rel_images r with
  | Some (first :: _ as images) =>
      let primaryImage :=
        default first
          (List.find (fun img => eqb (image_type img) (js "primary")) images) in
      orElse (image_uri500 primaryImage)
        (orElse (image_uri primaryImage) (image_uri150 primaryImage))
  | _ =>
      match basic_information r with
      | Some bi => orElse (bi_cover_image bi) (bi_thumb bi)
      | None => []
      end
  end.

Definition transformDiscogsVinylRelease (o : Oracle)
    (discogsRelease : DiscogsRelease) (masterId : jsstring) (index : Z)
    : VinylRelease :=
  let releaseData := releaseDataOf discogsRelease in
  let firstLabel :=
    match rd_labels releaseData with
    | Some (l :: _) => Some l
    | _ => None
    end in
  let coverUrl :=
    orElse (pickCover discogsRelease)
      (FALLBACK_COVER_PREFIX ++ toString (Z.rem (index * 30) 360) ++ js "&sat=70") in
  let listed :=
    match rel_tracklist discogsRelease with
    | Some l => tracksOfTracklist o 0%Z 0%nat l
    | None => []
    end in
  let tracks :=
    match listed with
    | [] => placeholderTracks o 1 (Z.to_nat (4 + randomFloor o 0 3))
    | _ :: _ => listed
    end in
  {| vr_id :=
       if numTruthy (rd_id releaseData) then toString (rd_id releaseData)
       else js "generated-" ++ toString (dateNow o) ++ js "-" ++ toString index;
     vr_releaseDate :=
       match optNumTruthy (rd_year releaseData) with
       | Some y => toString y
       | None => js "Unknown"
       end;
     vr_label :=
       match firstLabel with
       | Some l => label_name l
       | None => js "Unknown Label"
       end;
     vr_catalogNumber :=
       match firstLabel with
       | Some l => orElse (label_catno l) (js "N/A")
       | None => js "N/A"
       end;
     vr_coverUrl := coverUrl;
     vr_tracks := tracks;
     vr_masterId := masterId |}.

(** *** Free-text fields *)

Definition createDescription (releaseData : ReleaseData)
    (fullRelease : DiscogsRelease) : jsstring :=
  let formatPart :=
    match rd_formats releaseData with
    | Some (format :: _) =>
        let formatText := orElse (format_name format) (js "Vinyl") in
        let descriptions :=
          match format_descriptions format with
          | Some d => join (js ", ") d
          | None => []
          end in
        [formatText
         ++ if truthy descriptions then js " (" ++ descriptions ++ js ")" else []]
    | _ => []
    end in
  let stylePart :=
    match rd_styles releaseData with
    | Some ((_ :: _) as styles) => [js "Style: " ++ join (js ", ") styles]
    | _ => []
    end in
  let countryPart :=
    match optStrTruthy (rel_country fullRelease) with
    | Some country => [js "Released in " ++ country]
    | None => []
    end in
  let notesPart :=
    match optStrTruthy (rel_notes fullRelease) with
    | Some notes => [cleanText notes]
    | None => []
    end in
  let parts := formatPart ++ stylePart ++ countryPart ++ notesPart in
  let parts :=
    match parts with
    | _ :: _ => parts
    | [] =>
        let artist :=
          match rd_artists releaseData with
          | a :: _ => orElse (artist_name a) (js "Unknown Artist")
          | [] => js "Unknown Artist"
          end in
        let year :=
          match optNumTruthy (rd_year releaseData) with
          | Some y => toString y
          | None => js "Unknown Year"
          end in
        [js "A classic release by " ++ artist ++ js " from " ++ year ++ js "."]
    end in
  join (js ". ") parts ++ js ".".

Definition extractProducer (release : DiscogsRelease) : option jsstring :=
  findProducer (rel_extraartists release).

(** The pieces of [/recorded\s+in\s+(\w+\s+\d{4})/i].  Each class is
    disjoint from what must follow it, so a greedy run is the only way
    the pattern can match from a given position. *)
Fixpoint literalCI (lit s : jsstring) : option jsstring :=
  match lit, s with
  | [], _ => Some s
  | _ :: _, [] => None
  | l :: lit', c :: s' =>
      if toLowerAscii c =? toLowerAscii l then literalCI lit' s' else None
  end.

Definition run1 (p : char -> bool) (s : jsstring) : option (jsstring * jsstring) :=
  match span p s with
  | ((_ :: _) as run, rest) => Some (run, rest)
  | _ => None
  end.

Definition digits4 (s : jsstring) : option jsstring :=
  match s with
  | a :: b :: c :: d :: _ =>
      if isDigit a && isDigit b && isDigit c && isDigit d then Some [a; b; c; d]
      else None
  | _ => None
  end.

Definition matchRecordedIn (s : jsstring) : option jsstring :=
  s1 ← literalCI (js "recorded") s;
  '(_, s2) ← run1 isSpace s1;
  s3 ← literalCI (js "in") s2;
  '(_, s4) ← run1 isSpace s3;
  '(word, s5) ← run1 isWord s4;
  '(gap, s6) ← run1 isSpace s5;
  digits ← digits4 s6;
  Some (word ++ gap ++ digits).

(** [text.match(re)]: the leftmost position where the pattern matches;
    the answer is the first capture group. *)
Fixpoint firstMatch (m : jsstring -> option jsstring) (s : jsstring) : option jsstring :=
  match m s with
  | Some capture => Some capture
  | None => match s with [] => None | _ :: t => firstMatch m t end
  end.

Definition extractRecordingDate (release : DiscogsRelease) : option jsstring :=
  let fromNotes :=
    match optStrTruthy (rel_notes release) with
    | Some notes => firstMatch matchRecordedIn (cleanDiscogsMarkup notes)
    | None => None
    end in
  match fromNotes with
  | Some date => Some date
  | None => option_map toString (optNumTruthy (rel_year release))
  end.

(** [(basic_information?.master_id || master_id)?.toString() || 'unknown'] *)
Definition masterIdOf (r : DiscogsRelease) : option Z :=
  match basic_information r with
  | Some bi =>
      match optNumTruthy (bi_master_id bi) with
      | Some m => Some m
      | None => rel_master_id r
      end
  | None => rel_master_id r
  end.

Definition transformDiscogsToVinylRecord (o : Oracle)
    (discogsRelease : DiscogsRelease) (discogsMaster : option DiscogsMasterRelease)
    (index : Z) : VinylRecord.t :=
  let masterId :=
    match masterIdOf discogsRelease with
    | Some m => toString m
    | None => js "unknown"
    end in
  let vinylRelease := transformDiscogsVinylRelease o discogsRelease masterId index in
  let masterRelease :=
    match discogsMaster with
    | Some m => transformDiscogsMasterRelease m
    | None =>
        let releaseData := releaseDataOf discogsRelease in
        {| mr_id := masterId;
           mr_title := orElse (rd_title releaseData) (js "Unknown Title");
           mr_artist := artistNames (rd_artists releaseData);
           mr_genres := resolveGenres (rd_genres releaseData);
           mr_description := createDescription releaseData discogsRelease;
           mr_producer := extractProducer discogsRelease;
           mr_recordingDate := extractRecordingDate discogsRelease |}
    end in
  let finalYear :=
    match optStrTruthy (mr_recordingDate masterRelease) with
    | Some date => date
    | None => orElse (vr_releaseDate vinylRelease) (js "Unknown")
    end in
  {| VinylRecord.id := vr_id vinylRelease;
     VinylRecord.title := mr_title masterRelease;
     VinylRecord.artist := mr_artist masterRelease;
     VinylRecord.year := finalYear;
     VinylRecord.label := vr_label vinylRelease;
     VinylRecord.genres := mr_genres masterRelease;
     VinylRecord.catalogNumber := vr_catalogNumber vinylRelease;
     VinylRecord.coverUrl := vr_coverUrl vinylRelease;
     VinylRecord.tracks := vr_tracks vinylRelease;
     VinylRecord.description := mr_description masterRelease;
     VinylRecord.producer := mr_producer masterRelease;
     VinylRecord.recordingDate := mr_recordingDate masterRelease;
     VinylRecord.releaseDate := vr_releaseDate vinylRelease;
     VinylRecord._masterRelease := Some masterRelease;
     VinylRecord._vinylRelease := Some vinylRelease |}.

(** The year of a record, rule by rule: with a master, its year when
    positive; without one, the recording date that the notes of the
    release give or else the year of the release itself; failing these,
    the year of the release data, and the literal for no year at all. *)
Definition releaseYear (r : DiscogsRelease) : jsstring :=
  match rd_year (releaseDataOf r) with
  | Some y => if Z.eqb y 0 then js "Unknown" else toString y
  | None => js "Unknown"
  end.

Definition resolveYear (r : DiscogsRelease) (m : option DiscogsMasterRelease)
    : jsstring :=
  match m with
  | Some master =>
      match master_year master with
      | Some y => if Z.ltb 0 y then toString y else releaseYear r
      | None => releaseYear r
      end
  | None =>
      match extractRecordingDate r with
      | Some date => date
      | None => releaseYear r
      end
  end.

(** The rule of the specification, which looks at no notes: the year of
    the master when positive, else the year of the release when
    present, else the literal. *)
Definition specYear (itemYear : option Z) (m : option DiscogsMasterRelease)
    : jsstring :=
  match m with
  | Some {| master_year := Some y |} =>
      if Z.ltb 0 y then toString y
      else match itemYear with Some i => toString i | None => js "Unknown" end
  | _ => match itemYear with Some i => toString i | None => js "Unknown" end
  end.

(** *** Validation *)

Definition validateVinylRecord (record : VinylRecord.t) : bool :=
  truthy (VinylRecord.id record)
  && truthy (VinylRecord.title record)
  && truthy (VinylRecord.artist record)
  && truthy (VinylRecord.year record)
  && truthy (VinylRecord.label record)
  && Nat.ltb 0 (length (VinylRecord.genres record))
  && truthy (VinylRecord.coverUrl record)
  && Nat.ltb 0 (length (VinylRecord.tracks record)).

Definition filterValidRecords (records : list VinylRecord.t) : list VinylRecord.t :=
  List.filter validateVinylRecord records.


(** *** The whitespace replacement as a scanner

    [collapseFrom inRun] copies its input and writes one space for every
    run of whitespace; [inRun] tells that the run the scan is in has
    been written already.  [replace_matchSpaces] relates it to the
    regular-expression replacement of [cleanText]. *)
Fixpoint collapseFrom (inRun : bool) (s : jsstring) : jsstring :=
  match s with
  | [] => []
  | c :: t =>
      if isSpace c then
        if inRun then collapseFrom true t else SPACE :: collapseFrom true t
      else c :: collapseFrom false t
  end.

(** No whitespace but single [SPACE]s, none of them at the head when
    [inRun] is set. *)
Fixpoint collapsed (inRun : bool) (s : jsstring) : bool :=
  match s with
  | [] => true
  | c :: t =>
      if isSpace c then (c =? SPACE) && negb inRun && collapsed true t
      else collapsed false t
  end.

Definition headNonSpace (s : jsstring) : bool :=
  match s with [] => true | c :: _ => negb (isSpace c) end.

Fixpoint endsNonSpace (s : jsstring) : bool :=
  match s with
  | [] => true
  | c :: t => match t with [] => negb (isSpace c) | _ :: _ => endsNonSpace t end
  end.

(** Text that [trim] and the whitespace replacement leave as it is. *)
Definition normalSpacing (s : jsstring) : Prop :=
  collapsed true s = true /\ endsNonSpace s = true.

Definition allAllowed (s : jsstring) : Prop :=
  Forall (fun c => allowed c = true) s.

(** Text in which no markup tag can start. *)
Definition noBracket (s : jsstring) : Prop := Forall (fun c => c <> LBRACKET) s.

(** The markup [[key=name]]. *)
Definition markupTag (key name : jsstring) : jsstring :=
  LBRACKET :: key ++ EQUALS :: name ++ [RBRACKET].

(** A track entry without a title: the title is empty or blank. *)
Definition blankTitle (t : DiscogsTrack) : Prop := truthy (trim (track_title t)) = false.

(** *** Durations, hashes and the legacy transformation *)

(** The value of a run of decimal digits read after [acc]. *)
Fixpoint digitsValue (acc : Z) (digits : jsstring) : Z :=
  match digits with
  | [] => acc
  | c :: rest => digitsValue (acc * 10 + Z.of_N (c - 48)) rest
  end.

(** [parseInt(s, 10)]: leading whitespace, an optional sign, the longest
    run of digits; [None] is [NaN].  Integers are exact here. *)
Definition parseInt (s : jsstring) : option Z :=
  let s := trimStart s in
  let '(sign, rest) :=
    match s with
    | c :: t => if c =? 45 then ((-1)%Z, t) else if c =? 43 then (1%Z, t) else (1%Z, s)
    | [] => (1%Z, [])
    end in
  match span isDigit rest with
  | ([], _) => None
  | (digits, _) => Some (sign * digitsValue 0 digits)%Z
  end.

(** [s.split(sep)] for a separator of one code unit *)
Fixpoint split (sep : char) (s : jsstring) : list jsstring :=
  match s with
  | [] => [[]]
  | c :: t =>
      if c =? sep then [] :: split sep t
      else
        match split sep t with
        | part :: parts => (c :: part) :: parts
        | [] => [[c]]
        end
  end.

Definition COLON : char := 58.

Definition parseDuration (duration : jsstring) : Z :=
  if negb (truthy duration) then 0%Z
  else
    match split COLON duration with
    | [minutes; seconds] =>
        (default 0 (parseInt minutes) * 60 + default 0 (parseInt seconds))%Z
    | _ => 0%Z
    end.

(** [ToInt32] *)
Definition toInt32 (n : Z) : Z := ((n + 2 ^ 31) mod 2 ^ 32 - 2 ^ 31)%Z.

(** One round of the loop of [simpleHash]:
    [hash = (hash << 5) - hash + char; hash = hash & hash]. *)
Definition hashStep (hash : Z) (c : char) : Z :=
  toInt32 (toInt32 (hash * 32) - hash + Z.of_N c).

Definition simpleHash (str : jsstring) : Z := Z.abs (foldl hashStep 0%Z str).

Definition generateFallbackCover (recordId recordTitle : jsstring) : jsstring :=
  let hash := simpleHash (recordId ++ recordTitle) in
  let hue := Z.rem hash 360 in
  let sat := (60 + Z.rem hash 40)%Z in
  let brightness := if Z.eqb (Z.rem hash 2) 0 then 0%Z else (-20)%Z in
  js "https://images.unsplash.com/photo-1571974599782-87624638275d?w=400&h=400&fit=crop&auto=format&q=80&hue="
  ++ toString hue ++ js "&sat=" ++ toString sat
  ++ js "&brightness=" ++ toString brightness.

(** [discogsReleases.map((release, index) => ...)]; [oracleAt] is the
    oracle of each transformation. *)
Fixpoint transformCollectionFrom (oracleAt : nat -> Oracle) (index : nat)
    (discogsReleases : list DiscogsRelease) : list VinylRecord.t :=
  match discogsReleases with
  | [] => []
  | r :: rest =>
      transformDiscogsToVinylRecord (oracleAt index) r None (Z.of_nat index)
      :: transformCollectionFrom oracleAt (S index) rest
  end.

Definition transformDiscogsCollection (oracleAt : nat -> Oracle)
    (discogsReleases : list DiscogsRelease) : list VinylRecord.t :=
  transformCollectionFrom oracleAt 0 discogsReleases.

End DataTransform.

Import DataTransform.


(** ** Exceptions and results *)

(** What a [throw] carries: an [Error] with its message, p-retry's
    [AbortError], an axios error that has no response (network failure,
    timeout), or a value that is no [Error] at all. *)
Inductive exn :=
| Error (message : jsstring)
| AbortError (message : jsstring)
| NetworkError (message : jsstring)
| NonError.

(** [error instanceof Error ? error.message : fallback] *)
Definition messageOr (fallback : jsstring) (e : exn) : jsstring :=
  match e with
  | Error m | AbortError m | NetworkError m => m
  | NonError => fallback
  end.

(** ** cacheService *)

Module CacheService.

Record CacheMetadata :=
  { lastSync : Z; version : jsstring; totalRecords : nat;
    syncDuration : Z; errors : option (list jsstring) }.

(** The localforage instance: its two keys.  Reads and single writes
    succeed; a read that fails is caught by the service and answered
    like a missing key. *)
Record Store :=
  { vinyl_collection : option (list VinylRecord.t);
    collection_metadata : option CacheMetadata }.

Definition emptyStore : Store :=
  {| vinyl_collection := None; collection_metadata := None |}.

Definition CACHE_VERSION : jsstring := js "1.0.0".
Definition CACHE_EXPIRY_HOURS : Z := 24.

Definition setCollection (records : list VinylRecord.t) (st : Store) : Store :=
  {| vinyl_collection := Some records;
     collection_metadata := collection_metadata st |}.

Definition setMetadata (m : CacheMetadata) (st : Store) : Store :=
  {| vinyl_collection := vinyl_collection st; collection_metadata := Some m |}.

Definition getMetadata (st : Store) : option CacheMetadata := collection_metadata st.

Definition getCachedCollection (st : Store) : option (list VinylRecord.t) :=
  vinyl_collection st.

(** [isCacheValid] at the time [now] that [Date.now()] answers. *)
Definition isCacheValid (now : Z) (st : Store) : bool :=
  match getMetadata st with
  | None => false
  | Some metadata =>
      let cacheAge := (now - lastSync metadata)%Z in
      let maxAge := (CACHE_EXPIRY_HOURS * 60 * 60 * 1000)%Z in
      Z.ltb cacheAge maxAge
  end.

(** The two [setItem] calls of [cacheCollection] run under one
    [Promise.all]: each may succeed or fail on its own. *)
Record WriteOutcome := { collectionWritten : bool; metadataWritten : bool }.

Definition writeOk : WriteOutcome :=
  {| collectionWritten := true; metadataWritten := true |}.

Definition cacheCollection (out : WriteOutcome) (now : Z)
    (records : list VinylRecord.t) (duration : Z) (errs : list jsstring)
    (st : Store) : (exn + unit) * Store :=
  let metadata :=
    {| lastSync := now; version := CACHE_VERSION;
       totalRecords := length records; syncDuration := duration;
       errors := match errs with [] => None | _ :: _ => Some errs end |} in
  let st1 := if collectionWritten out then setCollection records st else st in
  let st2 := if metadataWritten out then setMetadata metadata st1 else st1 in
  if collectionWritten out && metadataWritten out then (inr tt, st2)
  else (inl (Error (js "Failed to cache collection data")), st2).

Definition clearCache (st : Store) : Store := emptyStore.

(** [records.findIndex(r => r.id === recordId)] *)
Fixpoint findIndex (recordId : jsstring) (records : list VinylRecord.t) : option nat :=
  match records with
  | [] => None
  | r :: rest =>
      if eqb (VinylRecord.id r) recordId then Some O
      else option_map S (findIndex recordId rest)
  end.

Definition notFound (recordId : jsstring) : exn :=
  Error (js "Record with ID " ++ recordId ++ js " not found in cache").

Definition updateCachedRecord (recordId : jsstring) (updatedRecord : VinylRecord.t)
    (st : Store) : exn + Store :=
  match getCachedCollection st with
  | None => inl (Error (js "No cached collection found"))
  | Some records =>
      match findIndex recordId records with
      | None => inl (notFound recordId)
      | Some index => inr (setCollection (<[index := updatedRecord]> records) st)
      end
  end.


Definition removeCachedRecord (recordId : jsstring) (st : Store) : exn + Store :=
  match getCachedCollection st with
  | None => inl (Error (js "No cached collection found"))
  | Some records =>
      let filteredRecords :=
        List.filter (fun r => negb (eqb (VinylRecord.id r) recordId)) records in
      if Nat.eqb (length filteredRecords) (length records) then
        inl (notFound recordId)
      else
        let st := setCollection filteredRecords st in
        match getMetadata st with
        | Some metadata =>
            inr (setMetadata
                   {| lastSync := lastSync metadata; version := version metadata;
                      totalRecords := length filteredRecords;
                      syncDuration := syncDuration metadata;
                      errors := errors metadata |} st)
        | None => inr st
        end
  end.



(** The metadata, where there is one, counts the stored records. *)
Definition countConsistent (st : Store) : Prop :=
  forall metadata, getMetadata st = Some metadata ->
    totalRecords metadata = length (default [] (getCachedCollection st)).

(** *** Backup and age *)

Record CachedCollection :=
  { records : list VinylRecord.t; metadata : CacheMetadata }.

Definition exportCache (st : Store) : option CachedCollection :=
  match getCachedCollection st, getMetadata st with
  | Some rs, Some m => Some {| records := rs; metadata := m |}
  | _, _ => None
  end.

Definition importCache (out : WriteOutcome) (now : Z) (data : CachedCollection)
    (st : Store) : (exn + unit) * Store :=
  match cacheCollection out now (records data) (syncDuration (metadata data))
          (default [] (errors (metadata data))) st with
  | (inr tt, st') => (inr tt, st')
  | (inl _, st') => (inl (Error (js "Failed to import cache data")), st')
  end.

(** The private [formatDuration] of the service: an age in words. *)
Definition plural (n : Z) : jsstring := if Z.ltb 1 n then js "s" else [].

Definition formatDuration (ms : Z) : jsstring :=
  let seconds := (ms / 1000)%Z in
  let minutes := (seconds / 60)%Z in
  let hours := (minutes / 60)%Z in
  let days := (hours / 24)%Z in
  if Z.ltb 0 days then toString days ++ js " day" ++ plural days ++ js " ago"
  else if Z.ltb 0 hours then toString hours ++ js " hour" ++ plural hours ++ js " ago"
  else if Z.ltb 0 minutes
       then toString minutes ++ js " minute" ++ plural minutes ++ js " ago"
  else toString seconds ++ js " second" ++ plural seconds ++ js " ago".

(** The identifiers of the stored records. *)
Definition storedIds (st : Store) : list jsstring :=
  List.map VinylRecord.id (default [] (getCachedCollection st)).

End CacheService.

(** ** discogsService *)

Module DiscogsService.

(** *** The response interceptor *)

(** What the HTTP layer answers to one [client.get]: a response, an
    error response with its status and the [message] of its body, or no
    response at all. *)
Inductive HttpAnswer (T : Type) :=
| Response (data : T)
| ErrorResponse (status : Z) (message : option jsstring)
| NoResponse (message : jsstring).

Arguments Response {T} data.
Arguments ErrorResponse {T} status message.
Arguments NoResponse {T} message.

Definition bodyMessage (message : option jsstring) : jsstring :=
  default (js "Unknown error") (optStrTruthy message).

Definition interceptor {T} (a : HttpAnswer T) : exn + T :=
  match a with
  | Response data => inr data
  | ErrorResponse status message =>
      inl (Error
        (match status with
         | 401%Z => js "Invalid Discogs API token. Please check your credentials."
         | 403%Z => js "Rate limit exceeded. Please wait before making more requests."
         | 404%Z => js "Resource not found."
         | 422%Z => js "Invalid parameters: " ++ bodyMessage message
         | _ => js "Discogs API Error: " ++ toString status ++ js " - "
                ++ bodyMessage message
         end))
  | NoResponse message => inl (NetworkError message)
  end.

(** *** p-retry

    The contract of the p-retry package that [makeRequest] calls: the
    task runs once and, while it rejects, up to [retries] more times; a
    rejection with [AbortError] or with a value that is no [Error] ends
    the run at once; before the [n]-th retry the run waits
    [min(minTimeout * factor^(n-1), maxTimeout)] milliseconds; when the
    retries are used up the run rejects with the error that occurred
    most often (the latest among equals). *)

Record RetryOptions :=
  { retries : nat; factor : Z; minTimeout : Z; maxTimeout : Z }.

Inductive RetryEvent :=
| Attempted (attemptNumber : nat)
| Waited (milliseconds : Z).

Definition retryDelay (opts : RetryOptions) (n : nat) : Z :=
  Z.min (Z.max (minTimeout opts) 1 * factor opts ^ Z.of_nat n) (maxTimeout opts).

Definition stopsRetry (e : exn) : bool :=
  match e with
  | AbortError _ | NonError => true
  | Error _ | NetworkError _ => false
  end.

Definition countMessage (m : jsstring) (errs : list exn) : nat :=
  length (List.filter (fun e => eqb (messageOr [] e) m) errs).

(** [operation.mainError()]: [seen] are the errors before [errs]. *)
Fixpoint mainErrorFrom (seen errs : list exn) (best : option exn) (bestCount : nat)
    : option exn :=
  match errs with
  | [] => best
  | e :: rest =>
      let count := S (countMessage (messageOr [] e) seen) in
      if Nat.leb bestCount count
      then mainErrorFrom (seen ++ [e]) rest (Some e) count
      else mainErrorFrom (seen ++ [e]) rest best bestCount
  end.

Definition mainError (errs : list exn) : option exn := mainErrorFrom [] errs None 0.

(** [task n] is the outcome of the [n]-th run of the task (from 1);
    [failed] are the errors of the runs before. *)
Fixpoint pRetryFrom {T} (task : nat -> exn + T) (opts : RetryOptions)
    (attemptNumber retriesDone retriesLeft : nat) (failed : list exn)
    : (exn + T) * list RetryEvent :=
  match task attemptNumber with
  | inr data => (inr data, [Attempted attemptNumber])
  | inl e =>
      if stopsRetry e then (inl e, [Attempted attemptNumber])
      else
        match retriesLeft with
        | O => (inl (default e (mainError (failed ++ [e]))), [Attempted attemptNumber])
        | S remaining =>
            let '(result, events) :=
              pRetryFrom task opts (S attemptNumber) (S retriesDone) remaining
                (failed ++ [e]) in
            (result,
             Attempted attemptNumber :: Waited (retryDelay opts retriesDone) :: events)
        end
  end.

Definition pRetry {T} (task : nat -> exn + T) (opts : RetryOptions)
    : (exn + T) * list RetryEvent :=
  pRetryFrom task opts 1 0 (retries opts) [].

Definition requestOptions : RetryOptions :=
  {| retries := 3; factor := 2; minTimeout := 1000; maxTimeout := 5000 |}.

(** [makeRequest]: [http n] is what the server answers to the [n]-th
    attempt.  The queue that paces the requests does not change their
    outcome. *)
Definition makeRequest {T} (http : nat -> HttpAnswer T) : (exn + T) * list RetryEvent :=
  pRetry (fun n => interceptor (http n)) requestOptions.

Definition attempts (events : list RetryEvent) : nat :=
  length (List.filter (fun e => match e with Attempted _ => true | Waited _ => false end) events).

Definition waits (events : list RetryEvent) : list Z :=
  omap (fun e => match e with Waited ms => Some ms | Attempted _ => None end) events.

(** *** Enrichment with master data *)

(** The outcome of the requests behind [getRelease] and
    [getMasterRelease], by identifier. *)
Record Api :=
  { getRelease : Z -> exn + DiscogsRelease;
    getMasterRelease : Z -> exn + DiscogsMasterRelease }.

Inductive Call :=
| CallGetRelease (releaseId : Z)
| CallGetMasterRelease (masterId : Z).

Record Enriched :=
  { release : DiscogsRelease; master : option DiscogsMasterRelease }.

(** [basicInfo?.id || release.id] *)
Definition releaseIdOf (r : DiscogsRelease) : Z :=
  match basic_information r with
  | Some bi => if numTruthy (bi_id bi) then bi_id bi else rel_id r
  | None => rel_id r
  end.

(** One callback of [batch.map(async release => ...)]: it is suspended
    at its first [await] (the release details), at its second (the
    master), or finished.  Between two [await]s a callback runs without
    interruption. *)
Inductive TaskState :=
| AwaitRelease (original : DiscogsRelease)
| AwaitMaster (detailedRelease : DiscogsRelease) (masterId : Z)
| Finished (result : Enriched).

Record EnrichState :=
  { masterCache : gmap Z DiscogsMasterRelease;
    tasks : list TaskState;
    calls : list Call }.

Definition setTask (i : nat) (t : TaskState) (calls' : list Call)
    (cache : gmap Z DiscogsMasterRelease) (st : EnrichState) : EnrichState :=
  {| masterCache := cache; tasks := <[i := t]> (tasks st);
     calls := calls st ++ calls' |}.

(** The request that task [i] awaits settles, and the task runs to its
    next [await] or to its end. *)
Definition resume (api : Api) (i : nat) (st : EnrichState) : EnrichState :=
  match tasks st !! i with
  | Some (AwaitRelease original) =>
      let detailedRelease :=
        match getRelease api (releaseIdOf original) with
        | inr detailed => detailed
        | inl _ => original
        end in
      match optNumTruthy (masterIdOf original) with
      | Some masterId =>
          match masterCache st !! masterId with
          | Some cached =>
              setTask i
                (Finished {| release := detailedRelease; master := Some cached |})
                [] (masterCache st) st
          | None =>
              setTask i (AwaitMaster detailedRelease masterId)
                [CallGetMasterRelease masterId] (masterCache st) st
          end
      | None =>
          setTask i (Finished {| release := detailedRelease; master := None |})
            [] (masterCache st) st
      end
  | Some (AwaitMaster detailedRelease masterId) =>
      match getMasterRelease api masterId with
      | inr masterData =>
          setTask i
            (Finished {| release := detailedRelease; master := Some masterData |})
            [] (<[masterId := masterData]> (masterCache st)) st
      | inl _ =>
          setTask i (Finished {| release := detailedRelease; master := None |})
            [] (masterCache st) st
      end
  | Some (Finished _) | None => st
  end.

Definition isPending (t : TaskState) : bool :=
  match t with Finished _ => false | _ => true end.

Fixpoint firstPending (i : nat) (ts : list TaskState) : option nat :=
  match ts with
  | [] => None
  | t :: rest => if isPending t then Some i else firstPending (S i) rest
  end.

(** Requests still pending after the given order settle one at a time,
    lowest task first. *)
Fixpoint drain (api : Api) (fuel : nat) (st : EnrichState) : EnrichState :=
  match fuel with
  | O => st
  | S fuel' =>
      match firstPending 0 (tasks st) with
      | Some i => drain api fuel' (resume api i st)
      | None => st
      end
  end.

Definition results (st : EnrichState) : list Enriched :=
  omap (fun t => match t with Finished r => Some r | _ => None end) (tasks st).

(** One batch: every callback starts and requests its release; the
    requests settle in the order [order] (task numbers) gives, and
    [Promise.all] answers the results in the order of the batch. *)
Definition runBatch (api : Api) (order : list nat) (batch : list DiscogsRelease)
    (cache : gmap Z DiscogsMasterRelease) (calls0 : list Call)
    : list Enriched * gmap Z DiscogsMasterRelease * list Call :=
  let st0 :=
    {| masterCache := cache; tasks := List.map AwaitRelease batch;
       calls := calls0 ++ List.map (fun r => CallGetRelease (releaseIdOf r)) batch |} in
  let st1 := foldl (fun st i => resume api i st) st0 order in
  let st2 := drain api (2 * length batch) st1 in
  (results st2, masterCache st2, calls st2).

Definition batchSize : nat := 10.

(** The loop over the batches; [schedule b] is the order in which the
    requests of batch [b] settle. *)
Fixpoint enrichBatches (api : Api) (schedule : nat -> list nat) (fuel batchNo : nat)
    (releases : list DiscogsRelease) (cache : gmap Z DiscogsMasterRelease)
    (calls0 : list Call) (enrichedReleases : list Enriched)
    : list Enriched * list Call :=
  match fuel, releases with
  | S fuel', _ :: _ =>
      let '(batchResults, cache', calls') :=
        runBatch api (schedule batchNo) (take batchSize releases) cache calls0 in
      enrichBatches api schedule fuel' (S batchNo) (drop batchSize releases)
        cache' calls' (enrichedReleases ++ batchResults)
  | _, _ => (enrichedReleases, calls0)
  end.

Definition enrichWithMasterData (api : Api) (schedule : nat -> list nat)
    (releases : list DiscogsRelease) : list Enriched * list Call :=
  enrichBatches api schedule (length releases) 0 releases ∅ [] [].

(** How often [getMasterRelease(masterId)] was invoked. *)
Definition masterFetches (masterId : Z) (cs : list Call) : nat :=
  length (List.filter
    (fun c => match c with
              | CallGetMasterRelease m => Z.eqb m masterId
              | CallGetRelease _ => false
              end) cs).

(** The requests for a release among the calls. *)
Definition getReleaseCalls (cs : list Call) : list Call :=
  List.filter (fun c => match c with CallGetRelease _ => true | _ => false end) cs.

(** The releases of a master, and the callbacks that have not yet
    decided whether to ask for it. *)
Definition hasMaster (masterId : Z) (r : DiscogsRelease) : bool :=
  bool_decide (optNumTruthy (masterIdOf r) = Some masterId).

Definition undecided (masterId : Z) (t : TaskState) : bool :=
  match t with
  | AwaitRelease original => hasMaster masterId original
  | AwaitMaster _ _ | Finished _ => false
  end.

(** What is left to settle: two requests for a callback at its first
    [await], one at its second. *)
Definition pendingSteps (t : TaskState) : nat :=
  match t with
  | AwaitRelease _ => 2
  | AwaitMaster _ _ => 1
  | Finished _ => 0
  end.

Definition remainingSteps (ts : list TaskState) : nat :=
  foldr (fun t n => (pendingSteps t + n)%nat) 0%nat ts.

(** The release that a callback answers with: the details if their
    request succeeds, the release of the collection if it fails. *)
Definition detailOf (api : Api) (r : DiscogsRelease) : DiscogsRelease :=
  match getRelease api (releaseIdOf r) with
  | inr detailed => detailed
  | inl _ => r
  end.

(** The master that a release may be answered with: none, or what
    [getMasterRelease] answers for the master of the release. *)
Definition masterOk (api : Api) (r : DiscogsRelease)
    (m : option DiscogsMasterRelease) : Prop :=
  match m with
  | None => True
  | Some masterData =>
      exists masterId,
        optNumTruthy (masterIdOf r) = Some masterId
        /\ getMasterRelease api masterId = inr masterData
  end.

(** A callback in step with its release, and a cache that holds only
    what [getMasterRelease] answers. *)
Definition taskOk (api : Api) (r : DiscogsRelease) (t : TaskState) : Prop :=
  match t with
  | AwaitRelease original => original = r
  | AwaitMaster detailedRelease masterId =>
      detailedRelease = detailOf api r
      /\ optNumTruthy (masterIdOf r) = Some masterId
  | Finished result =>
      release result = detailOf api r /\ masterOk api r (master result)
  end.

Definition cacheOk (api : Api) (cache : gmap Z DiscogsMasterRelease) : Prop :=
  forall masterId masterData,
    cache !! masterId = Some masterData ->
    getMasterRelease api masterId = inr masterData.

(** *** The pages of the collection *)

Record Pagination := { page : Z; pages : Z; per_page : Z; items : Z }.

Record DiscogsCollectionResponse :=
  { pagination : Pagination; releases : list DiscogsRelease }.

(** The pages that the loop [for (page = 2; page <= totalPages; page++)]
    requests. *)
Definition remainingPageNumbers (totalPages : Z) : list Z :=
  List.map (fun i => (Z.of_nat i + 2)%Z) (seq 0 (Z.to_nat (totalPages - 1))).

Fixpoint collect {A} (answers : list (exn + A)) : exn + list A :=
  match answers with
  | [] => inr []
  | inl e :: _ => inl e
  | inr a :: rest =>
      match collect rest with
      | inr l => inr (a :: l)
      | inl e => inl e
      end
  end.

(** [Promise.all]: the values in the order of the promises, or the
    reason of the promise that rejects first; [settled] numbers the
    promises in the order in which they settle. *)
Definition promiseAll {A} (settled : list nat) (answers : list (exn + A))
    : exn + list A :=
  match collect answers with
  | inr values => inr values
  | inl e =>
      inl (default e
             (head (omap (fun i => match answers !! i with
                                   | Some (inl e') => Some e'
                                   | _ => None
                                   end) settled)))
  end.

(** [{...release, tracklist}] *)
Definition withTracklist (r : DiscogsRelease) (tracklist : option (list DiscogsTrack))
    : DiscogsRelease :=
  {| rel_id := rel_id r; rel_title := rel_title r; rel_artists := rel_artists r;
     rel_year := rel_year r; rel_labels := rel_labels r; rel_genres := rel_genres r;
     rel_styles := rel_styles r; rel_images := rel_images r;
     rel_tracklist := tracklist;
     rel_master_id := rel_master_id r; rel_notes := rel_notes r;
     rel_extraartists := rel_extraartists r; rel_country := rel_country r;
     rel_formats := rel_formats r; basic_information := basic_information r |}.

(** The loop of [enrichWithTrackDetails], one release after the other. *)
Fixpoint enrichWithTrackDetails (api : Api) (rs : list DiscogsRelease)
    : list DiscogsRelease * list Call :=
  match rs with
  | [] => ([], [])
  | r :: rest =>
      let '(enriched, calls') := enrichWithTrackDetails api rest in
      if numTruthy (releaseIdOf r) then
        (match getRelease api (releaseIdOf r) with
         | inr detailedRelease => withTracklist r (rel_tracklist detailedRelease)
         | inl _ => r
         end :: enriched,
         CallGetRelease (releaseIdOf r) :: calls')
      else (r :: enriched, calls')
  end.

(** [getAllUserCollection]: [getUserCollection p] is the outcome of the
    request for page [p]; the answer comes with the pages requested. *)
Definition getAllUserCollection (api : Api)
    (getUserCollection : Z -> exn + DiscogsCollectionResponse)
    (settled : list nat) (includeTrackDetails : bool)
    : (exn + list DiscogsRelease) * list Z :=
  match getUserCollection 1%Z with
  | inl e => (inl e, [1%Z])
  | inr firstPage =>
      let totalPages := pages (pagination firstPage) in
      let others := if Z.ltb 1 totalPages then remainingPageNumbers totalPages else [] in
      (match promiseAll settled (List.map getUserCollection others) with
       | inl e => inl e
       | inr remainingPages =>
           let allReleases :=
             releases firstPage ++ concat (List.map releases remainingPages) in
           inr (if includeTrackDetails
                then fst (enrichWithTrackDetails api allReleases)
                else allReleases)
       end,
       1%Z :: others)
  end.

End DiscogsService.

(** ** syncService *)

Module SyncService.

Import CacheService.

Inductive Phase := connecting | fetching | transforming | caching | complete | error.

Record SyncProgress :=
  { phase : Phase; progress : Z; message : jsstring;
    progressRecordsProcessed : option nat; progressTotalRecords : option nat }.

Record SyncResult :=
  { success : bool; recordsProcessed : nat; resultErrors : list jsstring;
    duration : Z; fromCache : bool }.

Record SyncOptions := { forceRefresh : bool; skipMasterData : bool }.

(** What a run does that others can see: the progress callbacks and the
    calls of [discogsService], in order. *)
Inductive Event :=
| OnProgress (p : SyncProgress)
| TestConnection
| GetAllUserCollection
| EnrichWithMasterData (releases : list DiscogsRelease).

Definition isRemote (e : Event) : bool :=
  match e with OnProgress _ => false | _ => true end.

Record ConnectionTest :=
  { connected : bool; connectionMessage : jsstring; username : option jsstring }.

(** The surroundings of a run: the clock, the answers of the Discogs
    service, whether [cancelCurrentSync()] is called while the
    collection is being fetched, the oracle of each transformation and
    the outcome of the cache write. *)
Record Env :=
  { clock : nat -> Z;
    testConnection : ConnectionTest;
    getAllUserCollection : exn + list DiscogsRelease;
    cancelRequested : bool;
    enrichWithMasterData :
      list DiscogsRelease -> exn + list DiscogsService.Enriched;
    oracleFor : nat -> Oracle;
    writeOutcome : WriteOutcome }.

(** The service ([isSync], [cancelSync]), the cache, the [errors] array
    of the run in progress, the events so far and the number of
    [Date.now()] calls so far. *)
Record State :=
  { isSync : bool; cancelSync : bool; store : Store;
    errors : list jsstring; trace : list Event; ticks : nat }.

Definition M (A : Type) : Type := State -> (exn + A) * State.

Definition ret {A} (a : A) : M A := fun s => (inr a, s).

Definition bind {A B} (c : M A) (k : A -> M B) : M B :=
  fun s => match c s with
           | (inr a, s') => k a s'
           | (inl e, s') => (inl e, s')
           end.

Definition throw {A} (e : exn) : M A := fun s => (inl e, s).

Definition catch {A} (c : M A) (handler : exn -> M A) : M A :=
  fun s => match c s with
           | (inr a, s') => (inr a, s')
           | (inl e, s') => handler e s'
           end.

Definition finally {A} (c : M A) (after : State -> State) : M A :=
  fun s => let '(r, s') := c s in (r, after s').

Notation "x <- c ;; k" := (bind c (fun x => k))
  (at level 100, c at next level, right associativity).
Notation "c ;;; k" := (bind c (fun _ => k))
  (at level 100, right associativity).

Definition gets {A} (f : State -> A) : M A := fun s => (inr (f s), s).

Definition modify (f : State -> State) : M unit := fun s => (inr tt, f s).

Definition setFlags (sync cancel : bool) (s : State) : State :=
  {| isSync := sync; cancelSync := cancel; store := store s;
     errors := errors s; trace := trace s; ticks := ticks s |}.

Definition setStore (st : Store) (s : State) : State :=
  {| isSync := isSync s; cancelSync := cancelSync s; store := st;
     errors := errors s; trace := trace s; ticks := ticks s |}.

Definition setErrors (errs : list jsstring) (s : State) : State :=
  {| isSync := isSync s; cancelSync := cancelSync s; store := store s;
     errors := errs; trace := trace s; ticks := ticks s |}.

Definition emit (e : Event) : M unit :=
  modify (fun s =>
    {| isSync := isSync s; cancelSync := cancelSync s; store := store s;
       errors := errors s; trace := trace s ++ [e]; ticks := ticks s |}).

Definition dateNow (env : Env) : M Z :=
  fun s =>
    (inr (clock env (ticks s)),
     {| isSync := isSync s; cancelSync := cancelSync s; store := store s;
        errors := errors s; trace := trace s; ticks := S (ticks s) |}).

Definition pushError (m : jsstring) : M unit :=
  modify (fun s => setErrors (errors s ++ [m]) s).

Definition onProgress (ph : Phase) (percent : Z) (msg : jsstring) : M unit :=
  emit (OnProgress {| phase := ph; progress := percent; message := msg;
                      progressRecordsProcessed := None;
                      progressTotalRecords := None |}).

Definition onProgressCount (ph : Phase) (percent : Z) (msg : jsstring) (n : nat) : M unit :=
  emit (OnProgress {| phase := ph; progress := percent; message := msg;
                      progressRecordsProcessed := Some n;
                      progressTotalRecords := Some n |}).

Definition liftEither {A} (r : exn + A) : M A :=
  match r with inr a => ret a | inl e => throw e end.

Definition showNat (n : nat) : jsstring := toString (Z.of_nat n).

(** [cancelCurrentSync()] *)
Definition cancelCurrentSync (s : State) : State :=
  if isSync s then setFlags (isSync s) true s else s.

Definition CANCELLED : jsstring := js "Sync cancelled by user".
Definition NO_RELEASES : jsstring := js "No releases found in your Discogs collection".

Definition checkCancelled : M unit :=
  cancelled <- gets cancelSync ;;
  if cancelled then throw (Error CANCELLED) else ret tt.

(** [enrichedReleases.forEach((enriched, index) => ...)]; the
    transformation of the model never throws, so the [catch] around it
    has nothing to do. *)
Fixpoint transformAll (env : Env) (index : nat)
    (enrichedReleases : list DiscogsService.Enriched) : list VinylRecord.t :=
  match enrichedReleases with
  | [] => []
  | enriched :: rest =>
      transformDiscogsToVinylRecord (oracleFor env index)
        (DiscogsService.release enriched) (DiscogsService.master enriched)
        (Z.of_nat index)
      :: transformAll env (S index) rest
  end.

Definition invalidMessage (invalidCount : nat) : jsstring :=
  showNat invalidCount ++ js " records were invalid and filtered out".

Definition cacheCollectionM (env : Env) (records : list VinylRecord.t)
    (syncDuration : Z) (errs : list jsstring) : M unit :=
  now <- dateNow env ;;
  fun s =>
    let '(r, st) := cacheCollection (writeOutcome env) now records syncDuration errs (store s) in
    (r, setStore st s).

(** The [try] block of [syncFromDiscogs]. *)
Definition syncTry (env : Env) (skip : bool) (startTime : Z)
    : M (list VinylRecord.t * SyncResult) :=
  checkCancelled ;;;
  onProgress connecting 0 (js "Connecting to Discogs API...") ;;;
  emit TestConnection ;;;
  let connectionTest := testConnection env in
  (if negb (connected connectionTest)
   then throw (Error (connectionMessage connectionTest)) else ret tt) ;;;
  onProgress connecting 10
    (js "Connected as "
     ++ default (js "Unknown User") (optStrTruthy (username connectionTest))) ;;;
  onProgress fetching 20 (js "Fetching collection from Discogs...") ;;;
  emit GetAllUserCollection ;;;
  modify (fun s => if cancelRequested env then cancelCurrentSync s else s) ;;;
  discogsReleases <- liftEither (getAllUserCollection env) ;;
  checkCancelled ;;;
  (if Nat.eqb (length discogsReleases) 0
   then throw (Error NO_RELEASES) else ret tt) ;;;
  onProgress fetching 40
    (js "Fetched " ++ showNat (length discogsReleases) ++ js " releases") ;;;
  enrichedReleases <-
    (if skip then
       onProgress fetching 60 (js "Skipping master data for faster sync...") ;;;
       ret (List.map
              (fun r => {| DiscogsService.release := r;
                           DiscogsService.master := None |})
              discogsReleases)
     else
       onProgress fetching 50 (js "Fetching master release data...") ;;;
       emit (EnrichWithMasterData discogsReleases) ;;;
       enriched <- liftEither (enrichWithMasterData env discogsReleases) ;;
       onProgress fetching 60
         (js "Enriched " ++ showNat (length enriched)
          ++ js " releases with master data") ;;;
       ret enriched) ;;
  onProgress transforming 70 (js "Converting releases to app format...") ;;;
  let transformedRecords := transformAll env 0 enrichedReleases in
  let validRecords := filterValidRecords transformedRecords in
  (if negb (Nat.eqb (length validRecords) (length transformedRecords))
   then pushError
          (invalidMessage (length transformedRecords - length validRecords))
   else ret tt) ;;;
  onProgress transforming 80
    (js "Processed " ++ showNat (length validRecords) ++ js " valid records") ;;;
  onProgress caching 90 (js "Saving to local cache...") ;;;
  now <- dateNow env ;;
  let syncDuration := (now - startTime)%Z in
  errs <- gets errors ;;
  cacheCollectionM env validRecords syncDuration errs ;;;
  onProgressCount complete 100
    (js "Sync complete! " ++ showNat (length validRecords) ++ js " records cached")
    (length validRecords) ;;;
  errs <- gets errors ;;
  ret (validRecords,
       {| success := true; recordsProcessed := length validRecords;
          resultErrors := errs; duration := syncDuration; fromCache := false |}).

(** The [catch] block. *)
Definition syncCatch (env : Env) (startTime : Z) (e : exn)
    : M (list VinylRecord.t * SyncResult) :=
  let errorMessage := messageOr (js "Unknown sync error") e in
  pushError errorMessage ;;;
  onProgress error 0 (js "Sync failed: " ++ errorMessage) ;;;
  cachedRecords <- gets (fun s => getCachedCollection (store s)) ;;
  match cachedRecords with
  | Some ((_ :: _) as records) =>
      now <- dateNow env ;;
      errs <- gets errors ;;
      ret (records,
           {| success := false; recordsProcessed := length records;
              resultErrors := errs; duration := (now - startTime)%Z;
              fromCache := true |})
  | _ =>
      now <- dateNow env ;;
      errs <- gets errors ;;
      ret ([],
           {| success := false; recordsProcessed := 0;
              resultErrors := errs; duration := (now - startTime)%Z;
              fromCache := false |})
  end.

Definition syncFromDiscogs (env : Env) (skip : bool)
    : M (list VinylRecord.t * SyncResult) :=
  busy <- gets isSync ;;
  if busy then throw (Error (js "Sync already in progress"))
  else
    modify (fun s => setErrors [] (setFlags true false s)) ;;;
    startTime <- dateNow env ;;
    finally (catch (syncTry env skip startTime) (syncCatch env startTime))
      (setFlags false false).

Definition isCacheValidM (env : Env) : M bool :=
  metadata <- gets (fun s => getMetadata (store s)) ;;
  match metadata with
  | None => ret false
  | Some _ =>
      now <- dateNow env ;;
      gets (fun s => isCacheValid now (store s))
  end.

Definition getVinylRecords (env : Env) (options : SyncOptions)
    : M (list VinylRecord.t * SyncResult) :=
  let fresh := syncFromDiscogs env (skipMasterData options) in
  if negb (forceRefresh options) then
    isValid <- isCacheValidM env ;;
    if isValid then
      cachedRecords <- gets (fun s => getCachedCollection (store s)) ;;
      match cachedRecords with
      | Some ((_ :: _) as records) =>
          onProgressCount complete 100
            (js "Loaded " ++ showNat (length records) ++ js " records from cache")
            (length records) ;;;
          ret (records,
               {| success := true; recordsProcessed := length records;
                  resultErrors := []; duration := 0; fromCache := true |})
      | _ => fresh
      end
    else fresh
  else fresh.

(** The percentages that the progress callback has received. *)
Definition percentages (events : list Event) : list Z :=
  omap (fun e => match e with OnProgress p => Some (progress p) | _ => None end) events.

Definition remoteCalls (events : list Event) : list Event :=
  List.filter isRemote events.

Fixpoint nonDecreasing (l : list Z) : bool :=
  match l with
  | [] => true
  | a :: rest =>
      match rest with
      | [] => true
      | b :: _ => Z.leb a b && nonDecreasing rest
      end
  end.

(** What the [catch] block answers with: the cached records, if any. *)
Definition fallbackRecords (st : Store) : list VinylRecord.t :=
  default [] (getCachedCollection st).

(** The start time and the state with which the [try] block is entered. *)
Definition started (env : Env) (s : State) : Z * State :=
  (clock env (ticks s),
   {| isSync := true; cancelSync := false; store := store s;
      errors := []; trace := trace s; ticks := S (ticks s) |}).


Definition CACHE_FAILED : jsstring := js "Failed to cache collection data".

(** A list of percentages that never decrease and lie between two bounds. *)
Definition sortedWithin (lo hi : Z) (ps : list Z) : Prop :=
  nonDecreasing ps = true /\ Forall (fun p => (lo <= p <= hi)%Z) ps.

(** A step that reports only such percentages, and one that reports none. *)
Definition emitsWithin {A} (lo hi : Z) (c : M A) : Prop :=
  forall s, exists ps,
    percentages (trace (snd (c s))) = percentages (trace s) ++ ps
    /\ sortedWithin lo hi ps.

Definition silent {A} (c : M A) : Prop :=
  forall s, percentages (trace (snd (c s))) = percentages (trace s).

Definition succeeded (r : exn + list VinylRecord.t * SyncResult) : bool :=
  match r with
  | inr (_, result) => success result
  | inl _ => false
  end.

(** Every value that a step answers satisfies [P]. *)
Definition returns {A} (P : A -> Prop) (c : M A) : Prop :=
  forall s a s', c s = (inr a, s') -> P a.

(** *** The configuration *)

(** [import.meta.env], as far as the service reads it. *)
Record ImportMetaEnv :=
  { VITE_DISCOGS_PERSONAL_ACCESS_TOKEN : option jsstring;
    VITE_DISCOGS_USERNAME : option jsstring;
    VITE_DISCOGS_USER_AGENT : option jsstring }.

Record Validation := { isValid : bool; validationErrors : list jsstring }.

Record ConfigurationStatus :=
  { hasToken : bool; hasUsername : bool; hasUserAgent : bool; isConfigured : bool }.

(** [!!value] and [value !== text] on a variable that may be undefined. *)
Definition isSet (value : option jsstring) : bool :=
  match optStrTruthy value with Some _ => true | None => false end.

Definition differsFrom (value : option jsstring) (text : jsstring) : bool :=
  match value with Some v => negb (eqb v text) | None => true end.

Definition validateConfiguration (e : ImportMetaEnv) : Validation :=
  let errors :=
    (if negb (isSet (VITE_DISCOGS_PERSONAL_ACCESS_TOKEN e))
     then [js "Missing VITE_DISCOGS_PERSONAL_ACCESS_TOKEN environment variable"]
     else [])
    ++ (if negb (isSet (VITE_DISCOGS_USERNAME e))
        then [js "Missing VITE_DISCOGS_USERNAME environment variable"] else [])
    ++ (if negb (isSet (VITE_DISCOGS_USER_AGENT e))
        then [js "Missing VITE_DISCOGS_USER_AGENT environment variable"] else []) in
  {| isValid := Nat.eqb (length errors) 0; validationErrors := errors |}.

Definition getConfigurationStatus (e : ImportMetaEnv) : ConfigurationStatus :=
  let hasToken :=
    isSet (VITE_DISCOGS_PERSONAL_ACCESS_TOKEN e)
    && differsFrom (VITE_DISCOGS_PERSONAL_ACCESS_TOKEN e)
         (js "your_personal_access_token_here") in
  let hasUsername :=
    isSet (VITE_DISCOGS_USERNAME e)
    && differsFrom (VITE_DISCOGS_USERNAME e) (js "your_username_here") in
  let hasUserAgent := isSet (VITE_DISCOGS_USER_AGENT e) in
  {| hasToken := hasToken; hasUsername := hasUsername; hasUserAgent := hasUserAgent;
     isConfigured := hasToken && hasUsername && hasUserAgent |}.

Definition idle (st : Store) : State :=
  {| isSync := false; cancelSync := false; store := st;
     errors := []; trace := []; ticks := 0 |}.

End SyncService.

(** ** Sample data *)

Module Samples.

Import CacheService DiscogsService SyncService.

Definition bareRelease (releaseId : Z) (releaseYear : option Z)
    (masterId : option Z) (notes : option jsstring) : DiscogsRelease :=
  {| rel_id := releaseId; rel_title := js "Blue Train";
     rel_artists := [{| artist_name := js "John Coltrane"; artist_id := 1 |}];
     rel_year := releaseYear;
     rel_labels := Some [{| label_name := js "Blue Note"; label_catno := js "BLP 1577" |}];
     rel_genres := Some [js "Jazz"]; rel_styles := None; rel_images := None;
     rel_tracklist := None; rel_master_id := masterId; rel_notes := notes;
     rel_extraartists := None; rel_country := None; rel_formats := None;
     basic_information := None |}.


Definition masterOf (masterId : Z) (masterYear : option Z) : DiscogsMasterRelease :=
  {| master_id := masterId; master_title := js "Blue Train";
     master_year := masterYear;
     master_artists := [{| artist_name := js "John Coltrane"; artist_id := 1 |}];
     master_genres := Some [js "Jazz"]; master_notes := None;
     master_extraartists := None |}.

Definition oracle0 : Oracle :=
  {| DataTransform.dateNow := 1700000000000; randomRaw := fun i => Z.of_nat (37 * i) |}.

Definition recordOf (r : DiscogsRelease) : VinylRecord.t :=
  transformDiscogsToVinylRecord oracle0 r None 0.

Definition cachedRecord : VinylRecord.t :=
  recordOf (bareRelease 42 (Some 1957%Z) None None).

Definition warmStore (lastWrite : Z) : Store :=
  {| vinyl_collection := Some [cachedRecord];
     collection_metadata :=
       Some {| lastSync := lastWrite; version := CACHE_VERSION;
               totalRecords := 1; syncDuration := 1200;
               CacheService.errors := None |} |}.

(** Every request is answered. *)
Definition goodApi : Api :=
  {| getRelease := fun i => inr (bareRelease i (Some 1970%Z) (Some 7%Z) None);
     getMasterRelease := fun m => inr (masterOf m (Some 1957%Z)) |}.

Definition sharedMaster (n : nat) : list DiscogsRelease :=
  List.map (fun i => bareRelease (Z.of_nat (100 + i)) (Some 1970%Z) (Some 7%Z) None)
    (seq 0 n).

Definition connectedAs (name : string) : ConnectionTest :=
  {| connected := true;
     connectionMessage := js "Successfully connected to Discogs API as " ++ js name;
     username := Some (js name) |}.

(** A run in which every call succeeds and the collection is [releases]. *)
Definition goodEnv (releases : list DiscogsRelease) : Env :=
  {| clock := fun n => (1700000000000 + 250 * Z.of_nat n)%Z;
     testConnection := connectedAs "collector";
     getAllUserCollection := inr releases;
     cancelRequested := false;
     SyncService.enrichWithMasterData :=
       fun rs => inr (fst (DiscogsService.enrichWithMasterData goodApi (fun _ => []) rs));
     oracleFor := fun _ => oracle0;
     writeOutcome := writeOk |}.

Definition withCollection (env : Env) (answer : exn + list DiscogsRelease)
    (cancel : bool) : Env :=
  {| clock := clock env; testConnection := testConnection env;
     getAllUserCollection := answer; cancelRequested := cancel;
     SyncService.enrichWithMasterData := SyncService.enrichWithMasterData env;
     oracleFor := oracleFor env; writeOutcome := writeOutcome env |}.

End Samples.

(** * Properties *)

(** ** Text cleaning *)

Module CleanTextFacts.

Lemma span_app p s : fst (span p s) ++ snd (span p s) = s.
Proof.
  induction s as [|c t IH]; simpl; [reflexivity|].
  destruct (p c); [|reflexivity].
  destruct (span p t) as [a b]; simpl in *. now rewrite IH.
Qed.

Lemma span_fst_length p s : (length (fst (span p s)) <= length s)%nat.
Proof.
  rewrite <- (span_app p s) at 2. rewrite length_app. lia.
Qed.

Lemma replace_matchSpaces_aux s :
  replaceAll matchSpaces 0 s = collapseFrom false s /\
  replaceAll matchSpaces (length (fst (span isSpace s))) s = collapseFrom true s.
Proof.
  induction s as [|c t [IH0 IH1]]; [split; reflexivity|].
  assert (H0 : replaceAll matchSpaces 0 (c :: t) = collapseFrom false (c :: t)).
  { cbn [replaceAll collapseFrom]. unfold matchSpaces. cbn [span].
    destruct (isSpace c) eqn:Hc.
    - destruct (span isSpace t) as [a b] eqn:Hs. cbn [length Nat.pred app].
      simpl in IH1. f_equal. exact IH1.
    - f_equal. exact IH0. }
  split; [exact H0|].
  cbn [span]. destruct (isSpace c) eqn:Hc.
  - destruct (span isSpace t) as [a b] eqn:Hs. cbn [fst length replaceAll].
    simpl in IH1. etransitivity; [exact IH1|]. simpl. now rewrite Hc.
  - cbn [fst length]. etransitivity; [exact H0|]. simpl. now rewrite Hc.
Qed.

Lemma replace_matchSpaces s : replace matchSpaces s = collapseFrom false s.
Proof. apply replace_matchSpaces_aux. Qed.

Lemma collapseFrom_collapsed s : forall b, collapsed b (collapseFrom b s) = true.
Proof.
  induction s as [|c t IH]; intros b; simpl; [reflexivity|].
  destruct (isSpace c) eqn:Hc.
  - destruct b; [apply IH|]. simpl. now rewrite IH.
  - simpl. rewrite Hc. apply IH.
Qed.

Lemma collapsed_fixed s : forall b, collapsed b s = true -> collapseFrom b s = s.
Proof.
  induction s as [|c t IH]; intros b H; simpl in *; [reflexivity|].
  destruct (isSpace c).
  - apply andb_true_iff in H as [H Ht]. apply andb_true_iff in H as [Hc Hb].
    apply N.eqb_eq in Hc. destruct b; [discriminate|].
    rewrite (IH true Ht). now subst c.
  - now rewrite (IH false H).
Qed.

Lemma collapsed_weaken s : collapsed true s = true -> collapsed false s = true.
Proof.
  destruct s as [|c t]; simpl; [easy|].
  destruct (isSpace c); [|easy]. rewrite andb_false_r. discriminate.
Qed.

Lemma collapsed_head s : collapsed true s = true -> headNonSpace s = true.
Proof.
  destruct s as [|c t]; simpl; [easy|].
  destruct (isSpace c); [|easy]. rewrite andb_false_r. discriminate.
Qed.

Lemma collapseFrom_head s :
  headNonSpace s = true -> collapseFrom false s = collapseFrom true s.
Proof.
  destruct s as [|c t]; simpl; [easy|]. now destruct (isSpace c).
Qed.

Lemma collapseFrom_nil s b :
  collapseFrom b s = [] -> s = [] \/ endsNonSpace s = false.
Proof.
  revert b. induction s as [|c t IH]; intros b H; [now left|right].
  simpl in H. destruct (isSpace c) eqn:Hc; [|discriminate].
  destruct b; [|discriminate].
  destruct (IH true H) as [->|Ht]; simpl; [now rewrite Hc|].
  destruct t; [discriminate|exact Ht].
Qed.

Lemma endsNonSpace_cons c s :
  s <> [] -> endsNonSpace (c :: s) = endsNonSpace s.
Proof. destruct s; [congruence|reflexivity]. Qed.

Lemma collapseFrom_ends s :
  forall b, endsNonSpace s = true -> endsNonSpace (collapseFrom b s) = true.
Proof.
  induction s as [|c t IH]; intros b H; [reflexivity|].
  destruct t as [|c' t'].
  - simpl in H |- *. destruct (isSpace c) eqn:Hc; [discriminate|].
    simpl. now rewrite Hc.
  - change (endsNonSpace (c' :: t') = true) in H.
    assert (Hne : forall b', collapseFrom b' (c' :: t') <> []).
    { intros b' E. destruct (collapseFrom_nil _ _ E); congruence. }
    remember (c' :: t') as u eqn:Hu. clear Hu.
    cbn [collapseFrom]. destruct (isSpace c); [destruct b|].
    + now apply IH.
    + rewrite endsNonSpace_cons by apply Hne. now apply IH.
    + rewrite endsNonSpace_cons by apply Hne. now apply IH.
Qed.

Lemma trimStart_head s : headNonSpace (trimStart s) = true.
Proof.
  unfold trimStart. induction s as [|c t IH]; simpl; [reflexivity|].
  destruct (isSpace c) eqn:Hc.
  - now destruct (span isSpace t).
  - simpl. now rewrite Hc.
Qed.

Lemma trimStart_fixed s : headNonSpace s = true -> trimStart s = s.
Proof.
  unfold trimStart. destruct s as [|c t]; simpl; [easy|].
  now destruct (isSpace c).
Qed.

Lemma trimStart_suffix s : exists sp, s = sp ++ trimStart s.
Proof.
  exists (fst (span isSpace s)). symmetry. apply span_app.
Qed.

Lemma endsNonSpace_rev s : endsNonSpace s = headNonSpace (rev s).
Proof.
  induction s as [|c t IH]; [reflexivity|].
  destruct t as [|c' t']; [reflexivity|].
  change (endsNonSpace (c :: c' :: t')) with (endsNonSpace (c' :: t')).
  rewrite IH. simpl. destruct (rev t' ++ [c']) eqn:E; [|reflexivity].
  now destruct (rev t').
Qed.

Lemma headNonSpace_app a b :
  headNonSpace (a ++ b) = true -> headNonSpace a = true.
Proof. destruct a; [reflexivity|exact (fun H => H)]. Qed.

Lemma trim_head s : headNonSpace (trim s) = true.
Proof.
  unfold trim, trimEnd.
  destruct (trimStart_suffix (rev (trimStart s))) as [sp E].
  apply (f_equal (@rev char)) in E. rewrite rev_involutive, rev_app_distr in E.
  apply headNonSpace_app with (b := rev sp). rewrite <- E.
  apply trimStart_head.
Qed.

Lemma trim_ends s : endsNonSpace (trim s) = true.
Proof.
  unfold trim, trimEnd. rewrite endsNonSpace_rev, rev_involutive.
  apply trimStart_head.
Qed.

Lemma trim_fixed s :
  headNonSpace s = true -> endsNonSpace s = true -> trim s = s.
Proof.
  intros Hh He. unfold trim, trimEnd. rewrite (trimStart_fixed s Hh).
  rewrite endsNonSpace_rev in He. rewrite (trimStart_fixed _ He).
  apply rev_involutive.
Qed.

(** [trim] followed by the whitespace replacement yields normal spacing,
    and text with normal spacing passes both unchanged. *)
Lemma normalSpacing_collapse_trim s :
  normalSpacing (collapseFrom false (trim s)).
Proof.
  split.
  - rewrite collapseFrom_head by apply trim_head. apply collapseFrom_collapsed.
  - apply collapseFrom_ends, trim_ends.
Qed.

Lemma normalSpacing_fixed s :
  normalSpacing s -> collapseFrom false (trim s) = s.
Proof.
  intros [Hc He]. rewrite trim_fixed; auto using collapsed_head.
  apply collapsed_fixed, collapsed_weaken, Hc.
Qed.

(** *** Allowed characters and lengths *)

Lemma allowed_SPACE : allowed SPACE = true.
Proof. reflexivity. Qed.

Lemma allAllowed_rev s : allAllowed s -> allAllowed (rev s).
Proof. apply List.Forall_rev. Qed.

Lemma allAllowed_trimStart s : allAllowed s -> allAllowed (trimStart s).
Proof.
  unfold allAllowed. intros H. destruct (trimStart_suffix s) as [sp E].
  rewrite E in H. now apply Forall_app in H as [_ H].
Qed.

Lemma allAllowed_trim s : allAllowed s -> allAllowed (trim s).
Proof.
  intros H. unfold trim, trimEnd.
  auto using allAllowed_rev, allAllowed_trimStart.
Qed.

Lemma allAllowed_collapseFrom s : forall b, allAllowed s -> allAllowed (collapseFrom b s).
Proof.
  unfold allAllowed.
  induction s as [|c t IH]; intros b H; simpl; [constructor|].
  inversion H as [|? ? Hc Ht]; subst.
  destruct (isSpace c); [destruct b|]; auto using allowed_SPACE.
Qed.

Lemma trimStart_length s : (length (trimStart s) <= length s)%nat.
Proof.
  destruct (trimStart_suffix s) as [sp E]. rewrite E at 2.
  rewrite length_app. lia.
Qed.

Lemma trim_length s : (length (trim s) <= length s)%nat.
Proof.
  unfold trim, trimEnd. rewrite length_rev.
  etransitivity; [apply trimStart_length|]. rewrite length_rev.
  apply trimStart_length.
Qed.

Lemma collapseFrom_length s : forall b, (length (collapseFrom b s) <= length s)%nat.
Proof.
  induction s as [|c t IH]; intros b; simpl; [lia|].
  pose proof (IH true). pose proof (IH false).
  destruct (isSpace c); [destruct b|]; simpl; lia.
Qed.

Lemma filter_allowed_fixed s : allAllowed s -> List.filter allowed s = s.
Proof.
  unfold allAllowed. induction 1 as [|c t Hc _ IH]; simpl; [reflexivity|].
  now rewrite Hc, IH.
Qed.

(** *** Markup replacement on text without an opening bracket *)

Lemma allAllowed_noBracket s : allAllowed s -> noBracket s.
Proof.
  unfold allAllowed, noBracket. induction 1 as [|c t Hc _ IH]; constructor; auto.
  intros ->. discriminate.
Qed.

Lemma replace_noBracket m s :
  (forall c t, c <> LBRACKET -> m (c :: t) = None) ->
  noBracket s -> replace m s = s.
Proof.
  intros Hm. unfold replace, noBracket.
  induction 1 as [|c t Hc _ IH]; simpl; [reflexivity|].
  now rewrite (Hm c t Hc), IH.
Qed.

Lemma matchTag_head k c t : c <> LBRACKET -> matchTag k (c :: t) = None.
Proof.
  intros Hc. apply N.eqb_neq in Hc. unfold matchTag.
  destruct t as [|k' [|e rest]]; try reflexivity. now rewrite Hc.
Qed.

Lemma matchAnyTag_head c t : c <> LBRACKET -> matchAnyTag (c :: t) = None.
Proof. intros Hc. apply N.eqb_neq in Hc. unfold matchAnyTag. now rewrite Hc. Qed.

Lemma matchEmptyBrackets_head c t :
  c <> LBRACKET -> matchEmptyBrackets (c :: t) = None.
Proof.
  intros Hc. apply N.eqb_neq in Hc. unfold matchEmptyBrackets.
  destruct t; [reflexivity|]. now rewrite Hc.
Qed.

Lemma cleanDiscogsMarkup_noBracket s : noBracket s -> cleanDiscogsMarkup s = s.
Proof.
  intros H. unfold cleanDiscogsMarkup. destruct s as [|c t]; [reflexivity|].
  cbn [truthy negb].
  assert (Htag : forall k, replace (matchTag k) (c :: t) = c :: t).
  { intros k. apply replace_noBracket; [apply matchTag_head | exact H]. }
  rewrite !Htag.
  rewrite (replace_noBracket matchAnyTag); [|apply matchAnyTag_head | exact H].
  apply replace_noBracket; [apply matchEmptyBrackets_head | exact H].
Qed.

(** *** [cleanText] *)

(** Two cases of [testDiscogsMarkupCleaning]. *)
Example cleanText_markup_case :
  cleanText (js "Released by [l=Impulse!] featuring [a=John Coltrane] on [r=A Love Supreme]")
  = js "Released by Impulse! featuring John Coltrane on A Love Supreme".
Proof. vm_compute. reflexivity. Qed.

Example cleanText_plain_case :
  cleanText (js "No markup here, just plain text") = js "No markup here, just plain text".
Proof. vm_compute. reflexivity. Qed.

Lemma cleanText_allowed x : allAllowed (cleanText x).
Proof.
  unfold cleanText, allAllowed. destruct (negb (truthy x)); [constructor|].
  apply Forall_take, Forall_forall. intros c Hc.
  apply list_elem_of_In, filter_In in Hc. apply Hc.
Qed.

Lemma cleanText_length x : (length (cleanText x) <= MAX_TEXT)%nat.
Proof.
  unfold cleanText. destruct (negb (truthy x)); simpl; [lia|].
  rewrite length_take. lia.
Qed.

(** On text of allowed characters within the length limit, [cleanText]
    only trims and collapses the whitespace. *)
Lemma cleanText_on_allowed x :
  allAllowed x -> (length x <= MAX_TEXT)%nat ->
  cleanText x = collapseFrom false (trim x).
Proof.
  intros Ha Hl. unfold cleanText. destruct x as [|c t] eqn:Ex; [reflexivity|].
  cbn [truthy negb]. rewrite <- Ex in *.
  rewrite cleanDiscogsMarkup_noBracket by now apply allAllowed_noBracket.
  rewrite replace_matchSpaces.
  rewrite filter_allowed_fixed
    by now apply allAllowed_collapseFrom, allAllowed_trim.
  apply take_ge. pose proof (collapseFrom_length (trim x) false).
  pose proof (trim_length x). lia.
Qed.

Lemma cleanText_idempotent_aux x :
  allAllowed x -> (length x <= MAX_TEXT)%nat ->
  cleanText (cleanText x) = cleanText x.
Proof.
  intros Ha Hl. rewrite (cleanText_on_allowed x Ha Hl).
  rewrite cleanText_on_allowed.
  - apply normalSpacing_fixed, normalSpacing_collapse_trim.
  - now apply allAllowed_collapseFrom, allAllowed_trim.
  - pose proof (collapseFrom_length (trim x) false).
    pose proof (trim_length x). lia.
Qed.

(** Two applications of [cleanText] reach a fixed point, whatever the
    input. *)
Lemma cleanText_stable x :
  cleanText (cleanText (cleanText x)) = cleanText (cleanText x).
Proof.
  apply cleanText_idempotent_aux;
    [apply cleanText_allowed | apply cleanText_length].
Qed.




(** X6: whatever the text, its cleaned form is at most 1000 code units
    long, holds only characters that the cleaner keeps (so no bracket
    and no markup), and is left alone by the markup cleaner. *)
Theorem cleanText_bounded x :
  (length (cleanText x) <= 1000)%nat
  /\ allAllowed (cleanText x)
  /\ (forall c, c ∈ cleanText x -> c <> LBRACKET /\ c <> RBRACKET)
  /\ cleanDiscogsMarkup (cleanText x) = cleanText x.
Proof.
  split; [apply cleanText_length|]. split; [apply cleanText_allowed|]. split.
  - intros c Hc. pose proof (cleanText_allowed x) as Ha. unfold allAllowed in Ha.
    rewrite Forall_forall in Ha. specialize (Ha c Hc).
    split; intros ->; discriminate.
  - apply cleanDiscogsMarkup_noBracket, allAllowed_noBracket, cleanText_allowed.
Qed.

(** *** One tag in plain text *)

Lemma replaceAll_skip m a b : replaceAll m (length a) (a ++ b) = replaceAll m 0 b.
Proof. induction a as [|c a IH]; [reflexivity|exact IH]. Qed.

Lemma replace_app_plain m pre s :
  (forall c t, c <> LBRACKET -> m (c :: t) = None) ->
  noBracket pre -> replace m (pre ++ s) = pre ++ replace m s.
Proof.
  intros Hm. unfold replace, noBracket.
  induction 1 as [|c t Hc _ IH]; cbn [app replaceAll]; [reflexivity|].
  now rewrite (Hm c _ Hc), IH.
Qed.

Lemma span_stop p a c b :
  Forall (fun x => p x = true) a -> p c = false -> span p (a ++ c :: b) = (a, c :: b).
Proof.
  intros Ha Hc. induction Ha as [|x a Hx _ IH]; cbn [app span]; [now rewrite Hc|].
  now rewrite Hx, IH.
Qed.

Lemma captureToBracket_name name post :
  name <> [] -> Forall (fun c => c <> RBRACKET) name ->
  captureToBracket (name ++ RBRACKET :: post) = Some name.
Proof.
  intros Hne Hname. unfold captureToBracket. rewrite span_stop.
  - now destruct name.
  - eapply Forall_impl; [exact Hname|]. intros c Hc. unfold notRBracket.
    now apply negb_true_iff, N.eqb_neq.
  - reflexivity.
Qed.

Section OneTag.

Variables (pre key name post : jsstring).
Hypothesis Hpre : noBracket pre.
Hypothesis Hpost : noBracket post.
Hypothesis Hkey : Forall (fun c => isWord c = true) key.
Hypothesis Hkey_ne : key <> [].
Hypothesis Hname : Forall (fun c => c <> LBRACKET /\ c <> RBRACKET) name.
Hypothesis Hname_ne : name <> [].

Let tagged := pre ++ markupTag key name ++ post.
Let plain := pre ++ name ++ post.

Lemma name_noRBracket : Forall (fun c => c <> RBRACKET) name.
Proof. eapply Forall_impl; [exact Hname|]. now intros c [_ H]. Qed.

Lemma name_noBracket : noBracket name.
Proof. eapply Forall_impl; [exact Hname|]. now intros c [H _]. Qed.

Lemma key_noBracket : noBracket key.
Proof. eapply Forall_impl; [exact Hkey|]. intros c Hc ->. discriminate. Qed.

Lemma plain_noBracket : noBracket plain.
Proof.
  unfold plain, noBracket. rewrite !Forall_app.
  repeat split; [exact Hpre | apply name_noBracket | exact Hpost].
Qed.

Lemma inside_noBracket : noBracket (key ++ EQUALS :: name ++ RBRACKET :: post).
Proof.
  unfold noBracket. rewrite Forall_app. split; [apply key_noBracket|].
  constructor; [discriminate|]. rewrite Forall_app. split; [apply name_noBracket|].
  constructor; [discriminate|exact Hpost].
Qed.

Lemma tagged_eq :
  tagged = pre ++ LBRACKET :: key ++ EQUALS :: name ++ RBRACKET :: post.
Proof.
  unfold tagged, markupTag. cbn [app]. rewrite <- app_assoc. cbn [app].
  now rewrite <- app_assoc.
Qed.

Lemma fires m :
  (forall c t, c <> LBRACKET -> m (c :: t) = None) ->
  m (LBRACKET :: key ++ EQUALS :: name ++ RBRACKET :: post)
    = Some (name, (3 + length key + length name)%nat) ->
  replace m tagged = plain.
Proof.
  intros Hm Hfire. rewrite tagged_eq, (replace_app_plain m pre _ Hm Hpre).
  unfold plain. f_equal. unfold replace. cbn [replaceAll]. rewrite Hfire. f_equal.
  cbn [Nat.pred Nat.add].
  replace (key ++ EQUALS :: name ++ RBRACKET :: post)
    with ((key ++ EQUALS :: name ++ [RBRACKET]) ++ post)
    by (rewrite <- app_assoc; cbn [app]; now rewrite <- app_assoc).
  replace (S (S (length key + length name)))%nat
    with (length (key ++ EQUALS :: name ++ [RBRACKET]))
    by (rewrite length_app; cbn [length]; rewrite length_app; cbn [length]; lia).
  rewrite replaceAll_skip. now apply (replace_noBracket m post Hm).
Qed.

Lemma passes m :
  (forall c t, c <> LBRACKET -> m (c :: t) = None) ->
  m (LBRACKET :: key ++ EQUALS :: name ++ RBRACKET :: post) = None ->
  replace m tagged = tagged.
Proof.
  intros Hm Hnone. rewrite tagged_eq, (replace_app_plain m pre _ Hm Hpre).
  f_equal. unfold replace. cbn [replaceAll]. rewrite Hnone. f_equal.
  apply (replace_noBracket m _ Hm), inside_noBracket.
Qed.

Lemma matchTag_on_tag k :
  matchTag k (LBRACKET :: key ++ EQUALS :: name ++ RBRACKET :: post)
  = if bool_decide (key = [k])
    then Some (name, (3 + length key + length name)%nat) else None.
Proof.
  destruct key as [|k1 rest] eqn:Ek; [congruence|].
  inversion Hkey as [|? ? Hk1 Hrest]; subst.
  destruct rest as [|k2 rest'].
  - cbn [app matchTag]. rewrite N.eqb_refl. cbn [andb].
    destruct (N.eqb_spec k1 k) as [->|Hne].
    + rewrite bool_decide_eq_true_2 by reflexivity. cbn [andb].
      change (EQUALS =? EQUALS) with true. cbn iota.
      now rewrite (captureToBracket_name name post Hname_ne name_noRBracket).
    + rewrite bool_decide_eq_false_2 by congruence. reflexivity.
  - rewrite bool_decide_eq_false_2 by congruence.
    cbn [app matchTag]. inversion Hrest as [|? ? Hk2 _]; subst.
    replace (k2 =? EQUALS) with false; [now rewrite andb_false_r|].
    symmetry. apply N.eqb_neq. intros ->. discriminate.
Qed.

Lemma matchAnyTag_on_tag :
  matchAnyTag (LBRACKET :: key ++ EQUALS :: name ++ RBRACKET :: post)
  = Some (name, (3 + length key + length name)%nat).
Proof.
  unfold matchAnyTag. rewrite N.eqb_refl.
  rewrite (span_stop isWord key EQUALS _ Hkey eq_refl).
  destruct key as [|k1 rest]; [congruence|]. rewrite N.eqb_refl.
  now rewrite (captureToBracket_name name post Hname_ne name_noRBracket).
Qed.

Lemma replace_matchTag_tagged k :
  replace (matchTag k) tagged = if bool_decide (key = [k]) then plain else tagged.
Proof.
  pose proof (matchTag_on_tag k) as H. case_bool_decide.
  - apply fires; [apply matchTag_head|exact H].
  - apply passes; [apply matchTag_head|exact H].
Qed.

Lemma replace_plain m :
  (forall c t, c <> LBRACKET -> m (c :: t) = None) -> replace m plain = plain.
Proof. intros Hm. apply (replace_noBracket m _ Hm), plain_noBracket. Qed.

Lemma cleanDiscogsMarkup_tagged : cleanDiscogsMarkup tagged = plain.
Proof.
  unfold cleanDiscogsMarkup.
  assert (Ht : truthy tagged = true).
  { rewrite tagged_eq. now destruct pre. }
  rewrite Ht. cbn [negb].
  rewrite (replace_matchTag_tagged 108).
  case_bool_decide; [|].
  { rewrite !(replace_plain (matchTag _)) by apply matchTag_head.
    rewrite (replace_plain matchAnyTag) by apply matchAnyTag_head.
    apply replace_plain, matchEmptyBrackets_head. }
  rewrite (replace_matchTag_tagged 97).
  case_bool_decide; [|].
  { rewrite !(replace_plain (matchTag _)) by apply matchTag_head.
    rewrite (replace_plain matchAnyTag) by apply matchAnyTag_head.
    apply replace_plain, matchEmptyBrackets_head. }
  rewrite (replace_matchTag_tagged 114).
  case_bool_decide; [|].
  { rewrite !(replace_plain (matchTag _)) by apply matchTag_head.
    rewrite (replace_plain matchAnyTag) by apply matchAnyTag_head.
    apply replace_plain, matchEmptyBrackets_head. }
  rewrite (replace_matchTag_tagged 109).
  case_bool_decide; [|].
  { rewrite (replace_plain matchAnyTag) by apply matchAnyTag_head.
    apply replace_plain, matchEmptyBrackets_head. }
  rewrite (fires matchAnyTag matchAnyTag_head matchAnyTag_on_tag).
  apply replace_plain, matchEmptyBrackets_head.
Qed.

End OneTag.

(** X7: a tag [[key=name]] in text that has no other opening bracket
    is replaced by its name, whatever its key ([l], [a], [r], [m] or
    any other word), and the text around it is kept. *)
Theorem cleanDiscogsMarkup_tag pre key name post :
  noBracket pre -> noBracket post ->
  Forall (fun c => isWord c = true) key -> key <> [] ->
  Forall (fun c => c <> LBRACKET /\ c <> RBRACKET) name -> name <> [] ->
  cleanDiscogsMarkup (pre ++ markupTag key name ++ post) = pre ++ name ++ post.
Proof. apply cleanDiscogsMarkup_tagged. Qed.

Lemma cleanDiscogsMarkup_tag_witness :
  cleanDiscogsMarkup (js "for [l=Blue Note], 1957") = js "for Blue Note, 1957".
Proof.
  apply (cleanDiscogsMarkup_tag (js "for ") (js "l") (js "Blue Note") (js ", 1957"));
    try discriminate;
    repeat (constructor; [first [reflexivity | discriminate | split; discriminate]|]);
    constructor.
Defined.

(** An empty tag and an unclosed tag stay as they are; empty brackets go. *)
Example cleanDiscogsMarkup_edges :
  cleanDiscogsMarkup (js "[l=]") = js "[l=]"
  /\ cleanDiscogsMarkup (js "see [a=Lee Morgan") = js "see [a=Lee Morgan"
  /\ cleanDiscogsMarkup (js "a [] b") = js "a  b"
  /\ cleanDiscogsMarkup [] = [].
Proof. vm_compute. repeat split. Qed.

End CleanTextFacts.


(** ** Year resolution and validation *)

Module TransformFacts.

Lemma toString_truthy n : truthy (toString n) = true.
Proof.
  unfold toString. destruct (Z.to_int n) as [d|d]; [|reflexivity].
  destruct d; reflexivity.
Qed.

Lemma optStrTruthy_truthy s : truthy s = true -> optStrTruthy (Some s) = Some s.
Proof. intros H. simpl. now rewrite H. Qed.

Lemma run1_truthy p s run rest : run1 p s = Some (run, rest) -> truthy run = true.
Proof.
  unfold run1. destruct (span p s) as [[|c a] b]; [discriminate|].
  intros [= <- _]. reflexivity.
Qed.

Lemma matchRecordedIn_truthy s date :
  matchRecordedIn s = Some date -> truthy date = true.
Proof.
  unfold matchRecordedIn. intros H.
  destruct (literalCI (js "recorded") s) as [s1|]; [|discriminate].
  cbn [mbind option_bind] in H.
  destruct (run1 isSpace s1) as [[? s2]|]; [|discriminate]. cbn [mbind option_bind] in H.
  destruct (literalCI (js "in") s2) as [s3|]; [|discriminate]. cbn [mbind option_bind] in H.
  destruct (run1 isSpace s3) as [[? s4]|]; [|discriminate]. cbn [mbind option_bind] in H.
  destruct (run1 isWord s4) as [[word s5]|] eqn:Hw; [|discriminate]. cbn [mbind option_bind] in H.
  destruct (run1 isSpace s5) as [[gap s6]|]; [|discriminate]. cbn [mbind option_bind] in H.
  destruct (digits4 s6) as [digits|]; [|discriminate]. cbn [mbind option_bind] in H.
  injection H as <-. apply run1_truthy in Hw. now destruct word.
Qed.

Lemma firstMatch_truthy s date :
  firstMatch matchRecordedIn s = Some date -> truthy date = true.
Proof.
  induction s as [|c t IH]; cbn [firstMatch].
  - destruct (matchRecordedIn []) eqn:E; [|discriminate].
    intros [= <-]. eapply matchRecordedIn_truthy, E.
  - destruct (matchRecordedIn (c :: t)) eqn:E; [|exact IH].
    intros [= <-]. eapply matchRecordedIn_truthy, E.
Qed.

Lemma extractRecordingDate_truthy r date :
  extractRecordingDate r = Some date -> truthy date = true.
Proof.
  unfold extractRecordingDate.
  destruct (match optStrTruthy (rel_notes r) with
            | Some notes => firstMatch matchRecordedIn (cleanDiscogsMarkup notes)
            | None => None
            end) as [d|] eqn:E.
  - intros [= <-]. destruct (optStrTruthy (rel_notes r)); [|discriminate].
    eapply firstMatch_truthy, E.
  - destruct (optNumTruthy (rel_year r)); [|discriminate].
    intros [= <-]. apply toString_truthy.
Qed.

Lemma vr_releaseDate_releaseYear o r masterId index :
  vr_releaseDate (transformDiscogsVinylRelease o r masterId index) = releaseYear r.
Proof.
  unfold releaseYear. cbn [transformDiscogsVinylRelease vr_releaseDate].
  destruct (rd_year (releaseDataOf r)) as [y|]; [|reflexivity].
  unfold optNumTruthy, numTruthy. now destruct (Z.eqb y 0).
Qed.

Lemma releaseYear_truthy r : truthy (releaseYear r) = true.
Proof.
  unfold releaseYear. destruct (rd_year (releaseDataOf r)) as [y|]; [|reflexivity].
  destruct (Z.eqb y 0); [reflexivity|apply toString_truthy].
Qed.

Lemma year_resolveYear o r m index :
  VinylRecord.year (transformDiscogsToVinylRecord o r m index) = resolveYear r m.
Proof.
  unfold transformDiscogsToVinylRecord. cbn [VinylRecord.year].
  rewrite vr_releaseDate_releaseYear.
  assert (Hfall : orElse (releaseYear r) (js "Unknown") = releaseYear r).
  { unfold orElse. now rewrite releaseYear_truthy. }
  rewrite Hfall. destruct m as [master|]; cbn [resolveYear].
  - cbn [transformDiscogsMasterRelease mr_recordingDate].
    destruct (master_year master) as [y|]; [|reflexivity].
    unfold numTruthy. destruct (Z.ltb_spec 0 y) as [Hy|Hy].
    + replace (Z.eqb y 0) with false by (symmetry; apply Z.eqb_neq; lia).
      cbn [negb andb]. now rewrite optStrTruthy_truthy by apply toString_truthy.
    + now rewrite andb_false_r.
  - cbn [mr_recordingDate].
    destruct (extractRecordingDate r) as [date|] eqn:E; [|reflexivity].
    now rewrite optStrTruthy_truthy by (eapply extractRecordingDate_truthy, E).
Qed.

(** C3, as the specification states it, fails: without a master the
    year is first looked for in the notes of the release, and a release
    of 1970 whose notes say when it was recorded gets that date, not
    "1970". *)
Lemma year_prefers_recording_date_of_notes :
  let r := Samples.bareRelease 42 (Some 1970%Z) None
             (Some (js "Recorded in May 1957 at Van Gelder Studio")) in
  VinylRecord.year (transformDiscogsToVinylRecord Samples.oracle0 r None 0)
    = js "May 1957"
  /\ VinylRecord.year (transformDiscogsToVinylRecord Samples.oracle0 r None 0)
    <> specYear (rel_year r) None.
Proof. split; [vm_compute; reflexivity | vm_compute; discriminate]. Qed.

(** C3 (amended): the year of the record is the year of the master as a
    string when a master is supplied and its year is positive; with a
    master whose year is missing or not positive it is the year of the
    release data (of [basic_information] when the item has one) as a
    string when that is present and not 0, and "Unknown" otherwise;
    without a master it is the recording date found in the notes of the
    release, else the year of the release itself when not 0, else the
    year of the release data as before. *)
Theorem transformDiscogsToVinylRecord_year o r m index :
  VinylRecord.year (transformDiscogsToVinylRecord o r m index) = resolveYear r m.
Proof. apply year_resolveYear. Qed.

(** The scenarios of the specification. *)
Example year_master_1965_item_1970 :
  VinylRecord.year
    (transformDiscogsToVinylRecord Samples.oracle0
       (Samples.bareRelease 42 (Some 1970%Z) (Some 7%Z) None)
       (Some (Samples.masterOf 7 (Some 1965%Z))) 0) = js "1965".
Proof. vm_compute. reflexivity. Qed.

Example year_master_0_item_1970 :
  VinylRecord.year
    (transformDiscogsToVinylRecord Samples.oracle0
       (Samples.bareRelease 42 (Some 1970%Z) (Some 7%Z) None)
       (Some (Samples.masterOf 7 (Some 0%Z))) 0) = js "1970".
Proof. vm_compute. reflexivity. Qed.

Example year_both_missing :
  VinylRecord.year
    (transformDiscogsToVinylRecord Samples.oracle0
       (Samples.bareRelease 42 None (Some 7%Z) None)
       (Some (Samples.masterOf 7 None)) 0) = js "Unknown".
Proof. vm_compute. reflexivity. Qed.

(** With a master the rule of the specification is the rule of the code,
    the year 0 of a release standing for no year. *)
Lemma resolveYear_with_master r master :
  rd_year (releaseDataOf r) <> Some 0%Z ->
  resolveYear r (Some master) = specYear (rd_year (releaseDataOf r)) (Some master).
Proof.
  intros H0. unfold resolveYear, specYear, releaseYear. destruct master as [? ? y ? ? ? ?].
  cbn [master_year].
  assert (E : match rd_year (releaseDataOf r) with
              | Some y0 => if Z.eqb y0 0 then js "Unknown" else toString y0
              | None => js "Unknown"
              end = match rd_year (releaseDataOf r) with
                    | Some i => toString i
                    | None => js "Unknown"
                    end).
  { destruct (rd_year (releaseDataOf r)) as [i|]; [|reflexivity].
    destruct (Z.eqb_spec i 0) as [->|]; [now destruct H0|reflexivity]. }
  destruct y as [y|]; [destruct (Z.ltb 0 y)|]; auto.
Qed.

(** *** Validation *)


Lemma nonempty_spec {A} (l : list A) : Nat.ltb 0 (length l) = true <-> l <> [].
Proof.
  destruct l; split; intros H; try reflexivity; try discriminate.
  now destruct H.
Qed.




End TransformFacts.

(** ** The cache and its single-record mutations *)

Module CacheFacts.

Import CacheService.








(** *** Writing and reading *)

(** X8: a collection written with [cacheCollection] is what
    [getCachedCollection] answers afterwards; the metadata counts its
    records, and the cache is valid from the time of the write until
    24 hours have passed, the end not included. *)
Theorem cacheCollection_then_read now records d errs st :
  exists st',
    cacheCollection writeOk now records d errs st = (inr tt, st')
    /\ getCachedCollection st' = Some records
    /\ countConsistent st'
    /\ (forall later, isCacheValid later st' = true <-> (later - now < 86400000)%Z).
Proof.
  eexists. split; [reflexivity|]. split; [reflexivity|]. split.
  - intros md [= <-]. reflexivity.
  - intros later. unfold isCacheValid. cbn. apply Z.ltb_lt.
Qed.

Lemma findIndex_lookup recordId rs i :
  findIndex recordId rs = Some i ->
  exists r, rs !! i = Some r /\ VinylRecord.id r = recordId
    /\ forall j r', (j < i)%nat -> rs !! j = Some r' -> VinylRecord.id r' <> recordId.
Proof.
  revert i. induction rs as [|r rest IH]; intros i; cbn [findIndex]; [discriminate|].
  unfold eqb. case_bool_decide as Hid.
  - intros [= <-]. exists r. repeat split; [exact Hid|]. intros j r' Hj. lia.
  - destruct (findIndex recordId rest) as [k|]; [|discriminate].
    intros [= <-]. destruct (IH k eq_refl) as (r0 & Hr0 & Hid0 & Hbefore).
    exists r0. repeat split; [exact Hr0|exact Hid0|].
    intros [|j] r' Hj; cbn.
    + now intros [= <-].
    + apply Hbefore. lia.
Qed.

Lemma findIndex_None recordId rs :
  findIndex recordId rs = None <-> Forall (fun r => VinylRecord.id r <> recordId) rs.
Proof.
  induction rs as [|r rest IH]; cbn [findIndex]; [split; [constructor|reflexivity]|].
  unfold eqb. case_bool_decide as Hid.
  - split; [discriminate|]. intros H. inversion H; subst. contradiction.
  - destruct (findIndex recordId rest) as [k|]; cbn.
    + split; [discriminate|]. intros H. inversion H as [|? ? _ Hrest]; subst.
      apply IH in Hrest. discriminate.
    + split; [|reflexivity]. intros _. constructor; [exact Hid|]. now apply IH.
Qed.








(** *** Removing and updating *)

Lemma filter_length_eq {A} (p : A -> bool) l :
  length (List.filter p l) = length l <-> Forall (fun x => p x = true) l.
Proof.
  induction l as [|x l IH]; cbn; [split; [constructor|reflexivity]|].
  pose proof (List.filter_length_le p l) as Hle.
  destruct (p x) eqn:Hx; cbn.
  - split.
    + intros [= H]. constructor; [exact Hx|now apply IH].
    + intros H. inversion H; subst. f_equal. now apply IH.
  - split; [lia|]. intros H. inversion H; subst. congruence.
Qed.

(** X11: [removeCachedRecord] removes every record that has the
    identifier, not only the first, and keeps the others in their
    order; it fails, without a change, exactly when nothing is cached
    or no cached record has the identifier. *)
Theorem removeCachedRecord_spec recordId st :
  match removeCachedRecord recordId st with
  | inr st' =>
      exists rs,
        getCachedCollection st = Some rs
        /\ recordId ∈ List.map VinylRecord.id rs
        /\ getCachedCollection st'
           = Some (List.filter (fun r => negb (eqb (VinylRecord.id r) recordId)) rs)
        /\ (recordId ∉ storedIds st')
        /\ (forall r, VinylRecord.id r <> recordId ->
              r ∈ default [] (getCachedCollection st') <-> r ∈ rs)
  | inl e =>
      (getCachedCollection st = None /\ e = Error (js "No cached collection found"))
      \/ ((recordId ∉ storedIds st) /\ e = notFound recordId)
  end.
Proof.
  unfold removeCachedRecord, storedIds.
  destruct (getCachedCollection st) as [rs|] eqn:Hrs; [|now left].
  set (keep := fun r => negb (eqb (VinylRecord.id r) recordId)).
  assert (Hkeep : forall r, keep r = true <-> VinylRecord.id r <> recordId).
  { intros r. unfold keep, eqb. case_bool_decide; cbn; split; congruence. }
  destruct (Nat.eqb_spec (length (List.filter keep rs)) (length rs)) as [Hall|Hsome].
  - right. split; [|reflexivity]. apply filter_length_eq in Hall.
    cbn [default from_option id]. intros Hin. apply list_elem_of_fmap in Hin as (r & Hid & Hr).
    rewrite Forall_forall in Hall. specialize (Hall r Hr). apply Hkeep in Hall.
    congruence.
  - assert (Hcol : forall s, getCachedCollection (setCollection (List.filter keep rs) s)
                             = Some (List.filter keep rs)) by reflexivity.
    assert (Hres : exists st',
      match getMetadata (setCollection (List.filter keep rs) st) with
      | Some md =>
          inr (setMetadata
                 {| lastSync := lastSync md; version := version md;
                    totalRecords := length (List.filter keep rs);
                    syncDuration := syncDuration md; errors := errors md |}
                 (setCollection (List.filter keep rs) st))
      | None => inr (setCollection (List.filter keep rs) st)
      end = @inr exn Store st'
      /\ getCachedCollection st' = Some (List.filter keep rs)).
    { destruct (getMetadata _); eexists; split; reflexivity. }
    destruct Hres as (st' & -> & Hst'). exists rs. split; [reflexivity|].
    rewrite Hst'. cbn [default from_option id]. split; [|split; [reflexivity|split]].
    + destruct (decide (recordId ∈ List.map VinylRecord.id rs)) as [Hin|Hnot]; [exact Hin|].
      exfalso. apply Hsome, filter_length_eq, Forall_forall. intros r Hr. apply Hkeep.
      intros Hid. apply Hnot, list_elem_of_fmap. eauto.
    + intros Hin. apply list_elem_of_fmap in Hin as (r & Hid & Hr).
      apply list_elem_of_In, filter_In in Hr as [_ Hr]. apply Hkeep in Hr. congruence.
    + intros r Hid. rewrite !list_elem_of_In, filter_In, Hkeep. tauto.
Qed.



(** X13: [updateCachedRecord] puts the new record in the place of the
    first cached record that has the identifier and touches nothing
    else: the other places, the length and the metadata are as
    before.  The new record need not have the identifier it is stored
    under.  The call fails exactly when nothing is cached or no cached
    record has the identifier. *)
Theorem updateCachedRecord_spec recordId r st :
  match updateCachedRecord recordId r st with
  | inr st' =>
      exists rs i,
        getCachedCollection st = Some rs
        /\ findIndex recordId rs = Some i
        /\ getCachedCollection st' = Some (<[i := r]> rs)
        /\ (<[i := r]> rs) !! i = Some r
        /\ (forall j, j <> i -> (<[i := r]> rs) !! j = rs !! j)
        /\ length (<[i := r]> rs) = length rs
        /\ getMetadata st' = getMetadata st
  | inl e =>
      (getCachedCollection st = None /\ e = Error (js "No cached collection found"))
      \/ ((recordId ∉ storedIds st) /\ e = notFound recordId)
  end.
Proof.
  unfold updateCachedRecord, storedIds.
  destruct (getCachedCollection st) as [rs|] eqn:Hrs; [|now left].
  destruct (findIndex recordId rs) as [i|] eqn:Hi.
  - exists rs, i. destruct (findIndex_lookup _ _ _ Hi) as (r0 & Hr0 & _).
    apply lookup_lt_Some in Hr0.
    repeat split; auto using list_lookup_insert_eq, length_insert.
    intros j Hj. now apply list_lookup_insert_ne.
  - right. split; [|reflexivity]. cbn [default from_option id].
    apply findIndex_None in Hi. rewrite Forall_forall in Hi.
    intros Hin. apply list_elem_of_fmap in Hin as (r0 & Hid & Hr0).
    now apply (Hi r0 Hr0).
Qed.

(** An update may store a record under another identifier than its
    own; the cache then holds two records with one identifier, and a
    removal takes both. *)
Example update_can_duplicate_an_identifier :
  let a := Samples.recordOf (Samples.bareRelease 1 None None None) in
  let b := Samples.recordOf (Samples.bareRelease 2 None None None) in
  let st := setCollection [a; b] emptyStore in
  option_map storedIds
    (match updateCachedRecord (js "2") a st with inr s => Some s | inl _ => None end)
  = Some [js "1"; js "1"]
  /\ option_map storedIds
       (match updateCachedRecord (js "2") a st with
        | inr s => match removeCachedRecord (js "1") s with
                   | inr s' => Some s' | inl _ => None end
        | inl _ => None
        end) = Some [].
Proof. vm_compute. split; reflexivity. Qed.

(** *** Backup *)

(** X14: importing what [exportCache] answered stores the same records
    again and dates them anew: the imported cache is valid at the time
    of the import however old the backup is, its metadata counts the
    records and keeps the duration of the original sync. *)
Theorem importCache_of_export st data now st0 :
  exportCache st = Some data ->
  exists st',
    importCache writeOk now data st0 = (inr tt, st')
    /\ getCachedCollection st' = getCachedCollection st
    /\ isCacheValid now st' = true
    /\ countConsistent st'
    /\ exists md, getMetadata st' = Some md
         /\ lastSync md = now
         /\ syncDuration md = syncDuration (metadata data)
         /\ default [] (errors md) = default [] (errors (metadata data)).
Proof.
  unfold exportCache.
  destruct (getCachedCollection st) as [rs|]; [|discriminate].
  destruct (getMetadata st) as [m|]; [|discriminate].
  intros [= <-]. eexists. split; [reflexivity|].
  split; [reflexivity|]. split.
  - unfold isCacheValid, CACHE_EXPIRY_HOURS.
    cbn [getMetadata setMetadata setCollection collection_metadata lastSync
         writeOk collectionWritten metadataWritten].
    apply Z.ltb_lt. lia.
  - split; [intros md [= <-]; reflexivity|].
    eexists. split; [reflexivity|]. cbn. repeat split.
    now destruct (errors m) as [[|e es]|].
Qed.

Lemma importCache_of_export_witness :
  exists st',
    importCache writeOk 1700000000000
      {| records := [Samples.cachedRecord];
         metadata := {| lastSync := 0; version := CACHE_VERSION; totalRecords := 1;
                        syncDuration := 1200; errors := None |} |} emptyStore
    = (inr tt, st')
    /\ getCachedCollection st' = Some [Samples.cachedRecord]
    /\ isCacheValid 1700000000000 st' = true
    /\ isCacheValid 1700000000000 (Samples.warmStore 0) = false.
Proof.
  destruct (importCache_of_export (Samples.warmStore 0)
              {| records := [Samples.cachedRecord];
                 metadata := {| lastSync := 0; version := CACHE_VERSION; totalRecords := 1;
                                syncDuration := 1200; errors := None |} |}
              1700000000000 emptyStore eq_refl)
    as (st' & Himp & Hcol & Hvalid & _).
  exists st'. split; [exact Himp|]. split; [exact Hcol|]. split; [exact Hvalid|].
  vm_compute. reflexivity.
Defined.

(** *** Age *)

(** X15: the age that the status shows is counted in days exactly when
    the cache is not valid any more: an age of 24 hours or more is
    given in days, a smaller one (the clock not running backwards) in
    hours, minutes or seconds. *)
Theorem formatDuration_days_iff_expired now st md :
  getMetadata st = Some md ->
  (lastSync md <= now)%Z ->
  let age := (now - lastSync md)%Z in
  (isCacheValid now st = false ->
     (1 <= age / 86400000)%Z
     /\ formatDuration age
        = toString (age / 86400000) ++ js " day" ++ plural (age / 86400000) ++ js " ago")
  /\ (isCacheValid now st = true ->
     exists n unit,
       formatDuration age = toString n ++ unit ++ plural n ++ js " ago"
       /\ (unit = js " hour" \/ unit = js " minute" \/ unit = js " second")).
Proof.
  intros Hmd Hle. cbn zeta. unfold isCacheValid. rewrite Hmd.
  set (age := (now - lastSync md)%Z). assert (Hage : (0 <= age)%Z) by (unfold age; lia).
  change (CACHE_EXPIRY_HOURS * 60 * 60 * 1000)%Z with 86400000%Z.
  assert (Hdays : (age / 1000 / 60 / 60 / 24 = age / 86400000)%Z).
  { rewrite !Z.div_div by lia. reflexivity. }
  unfold formatDuration. rewrite Hdays. split.
  - intros Hexp. apply Z.ltb_ge in Hexp.
    assert (Hd : (1 <= age / 86400000)%Z) by (apply Z.div_le_lower_bound; lia).
    split; [exact Hd|]. replace (Z.ltb 0 (age / 86400000)) with true; [reflexivity|].
    symmetry. apply Z.ltb_lt. lia.
  - intros Hval. apply Z.ltb_lt in Hval.
    assert (Hd : (age / 86400000 = 0)%Z) by (apply Z.div_small; lia).
    rewrite Hd. cbn [Z.ltb Z.compare].
    destruct (Z.ltb 0 (age / 1000 / 60 / 60)); [eauto 6|].
    destruct (Z.ltb 0 (age / 1000 / 60)); eauto 6.
Qed.

Lemma formatDuration_days_iff_expired_witness :
  formatDuration (1700000000000 - 1699800000000) = js "2 days ago"
  /\ isCacheValid 1700000000000 (Samples.warmStore 1699800000000) = false
  /\ formatDuration (1700000000000 - 1699999990000) = js "10 seconds ago".
Proof.
  destruct (formatDuration_days_iff_expired 1700000000000
              (Samples.warmStore 1699800000000) _ eq_refl ltac:(cbn; lia))
    as [Hexp _].
  destruct (Hexp ltac:(vm_compute; reflexivity)) as [_ Hfmt].
  split; [|split; vm_compute; reflexivity].
  etransitivity; [exact Hfmt|]. vm_compute. reflexivity.
Defined.

End CacheFacts.

(** ** Requests and enrichment *)

Module DiscogsFacts.

Import DiscogsService.





Lemma makeRequest_retries_404_422 :
  attempts (snd (makeRequest (fun _ : nat => @ErrorResponse unit 404 None))) = 4%nat
  /\ attempts (snd (makeRequest (fun _ : nat => @ErrorResponse unit 422 None))) = 4%nat.
Proof. split; vm_compute; reflexivity. Qed.



(** A failure followed by an answer: the request succeeds at the second
    attempt, after one wait. *)
Example makeRequest_recovers :
  makeRequest (fun n : nat =>
     match n with
     | 1%nat => ErrorResponse 403 None
     | _ => Response 7%Z
     end)
  = (inr 7%Z, [Attempted 1; Waited 1000; Attempted 2]).
Proof. vm_compute. reflexivity. Qed.

(** *** The master cache of an enrichment run *)

(** C6: two releases of one batch share the master 7.  Both requests
    for the release details settle before either request for the master
    does, as they do when the requests are answered in the order in
    which they were sent: each callback finds the cache empty and
    [getMasterRelease(7)] is invoked twice. *)
Theorem enrichWithMasterData_fetches_shared_master_twice :
  masterFetches 7
    (snd (enrichWithMasterData Samples.goodApi (fun _ => [0; 1; 0; 1]%nat)
            (Samples.sharedMaster 2))) = 2%nat.
Proof. vm_compute. reflexivity. Qed.

(** The cache does serve a release whose callback resumes after the
    master has arrived, in the same batch or in a later one. *)
Example enrichWithMasterData_serves_late_callback :
  masterFetches 7
    (snd (enrichWithMasterData Samples.goodApi (fun _ => [0; 0; 1]%nat)
            (Samples.sharedMaster 2))) = 1%nat.
Proof. vm_compute. reflexivity. Qed.

Example enrichWithMasterData_serves_next_batch :
  let releases :=
    Samples.bareRelease 1 None (Some 7%Z) None
    :: List.map (fun i => Samples.bareRelease (Z.of_nat (2 + i)) None None None) (seq 0 9)
    ++ [Samples.bareRelease 11 None (Some 7%Z) None] in
  let run := enrichWithMasterData Samples.goodApi (fun _ => []) releases in
  masterFetches 7 (snd run) = 1%nat
  /\ List.map (fun e => option_map master_id (master e)) (fst run)
     = Some 7%Z :: replicate 9 None ++ [Some 7%Z].
Proof. vm_compute. split; reflexivity. Qed.

(** *** The shape of every request *)

Lemma pRetryFrom_shape {T} (task : nat -> exn + T) opts :
  forall remaining n done failed,
    let run := pRetryFrom task opts n done remaining failed in
    (1 <= attempts (snd run) <= S remaining)%nat
    /\ waits (snd run)
       = List.map (retryDelay opts) (seq done (attempts (snd run) - 1))
    /\ (forall data, fst run = inr data ->
          task (n + attempts (snd run) - 1)%nat = inr data).
Proof.
  induction remaining as [|remaining IH]; intros n done failed; cbn zeta;
    cbn [pRetryFrom]; destruct (task n) as [e|data] eqn:Hn.
  - destruct (stopsRetry e); cbn; (split; [lia|]); (split; [reflexivity|]);
      discriminate.
  - cbn. split; [lia|]. split; [reflexivity|]. intros d [= <-].
    now replace (n + 1 - 1)%nat with n by lia.
  - destruct (stopsRetry e).
    + cbn. split; [lia|]. split; [reflexivity|]. discriminate.
    + specialize (IH (S n) (S done) (failed ++ [e])). cbn zeta in IH.
      destruct (pRetryFrom task opts (S n) (S done) remaining (failed ++ [e]))
        as [result events].
      destruct IH as (Ha & Hw & Hd). cbn [fst snd] in *.
      change (attempts (Attempted n :: Waited (retryDelay opts done) :: events))
        with (S (attempts events)).
      change (waits (Attempted n :: Waited (retryDelay opts done) :: events))
        with (retryDelay opts done :: waits events).
      split; [lia|]. split.
      * rewrite Hw. replace (S (attempts events) - 1)%nat
          with (S (attempts events - 1)) by lia. reflexivity.
      * intros data Hdata. specialize (Hd data Hdata).
        now replace (n + S (attempts events) - 1)%nat
          with (S n + attempts events - 1)%nat by lia.
  - cbn. split; [lia|]. split; [reflexivity|]. intros d [= <-].
    now replace (n + 1 - 1)%nat with n by lia.
Qed.

(** X16: whatever the server does, a request is attempted at least once
    and at most four times; the waits between the attempts are the
    first of 1000, 2000 and 4000 milliseconds, never more than the cap
    of 5000; and a request that succeeds answers the data of its last
    attempt. *)
Theorem makeRequest_bounded {T} (http : nat -> HttpAnswer T) :
  let run := makeRequest http in
  (1 <= attempts (snd run) <= 4)%nat
  /\ waits (snd run) = take (attempts (snd run) - 1) [1000; 2000; 4000]%Z
  /\ Forall (fun ms => (ms <= 5000)%Z) (waits (snd run))
  /\ (forall data, fst run = inr data ->
        http (attempts (snd run)) = Response data).
Proof.
  cbn zeta. unfold makeRequest, pRetry.
  destruct (pRetryFrom_shape (fun n => interceptor (http n)) requestOptions 3 1 0 [])
    as (Ha & Hw & Hd). cbn zeta in *. cbn [retries requestOptions] in *.
  set (run := pRetryFrom (fun n => interceptor (http n)) requestOptions 1 0 3 []) in *.
  assert (Hcases : attempts (snd run) = 1%nat \/ attempts (snd run) = 2%nat
                   \/ attempts (snd run) = 3%nat \/ attempts (snd run) = 4%nat) by lia.
  split; [exact Ha|]. split; [|split].
  - rewrite Hw. destruct Hcases as [-> | [-> | [-> | ->]]]; reflexivity.
  - rewrite Hw. destruct Hcases as [-> | [-> | [-> | ->]]];
      repeat constructor; vm_compute; discriminate.
  - intros data Hdata. specialize (Hd data Hdata).
    replace (1 + attempts (snd run) - 1)%nat with (attempts (snd run)) in Hd by lia.
    destruct (http (attempts (snd run))); cbn in Hd; congruence.
Qed.



(** *** The pages of the collection *)

Lemma collect_inr {A} (answers : list (exn + A)) l :
  collect answers = inr l <-> answers = List.map inr l.
Proof.
  revert l. induction answers as [|[e|a] rest IH]; intros l; cbn [collect].
  - split; [intros [= <-]; reflexivity|]. destruct l; [reflexivity|discriminate].
  - split; [discriminate|]. destruct l; discriminate.
  - destruct (collect rest) as [e|l'] eqn:Hrest.
    + split; [discriminate|]. destruct l as [|a' l]; [discriminate|].
      cbn. intros [= <- Hl]. apply IH in Hl. discriminate.
    + split.
      * intros [= <-]. cbn. f_equal. now apply IH.
      * destruct l as [|a' l]; [discriminate|]. cbn. intros [= <- Hl].
        apply IH in Hl. now injection Hl as <-.
Qed.

Lemma collect_inl {A} (answers : list (exn + A)) :
  (exists e, inl e ∈ answers) -> exists e, collect answers = inl e.
Proof.
  intros [e He]. destruct (collect answers) as [e'|l] eqn:Hc; [eauto|].
  apply collect_inr in Hc. subst answers. apply list_elem_of_fmap in He as (a & Ha & _).
  discriminate.
Qed.





(** A failure of page 1 ends the fetch before any other page is asked
    for; a failure of a later page loses the pages that were answered. *)
Example getAllUserCollection_failures :
  let onePage := {| pagination := {| page := 1; pages := 3; per_page := 100; items := 201 |};
                    releases := [Samples.bareRelease 1 None None None] |} in
  getAllUserCollection Samples.goodApi (fun _ => inl (NetworkError (js "Network Error")))
    [] false
  = (inl (NetworkError (js "Network Error")), [1%Z])
  /\ getAllUserCollection Samples.goodApi
       (fun p => if Z.eqb p 3 then inl (Error (js "Resource not found.")) else inr onePage)
       [] false
     = (inl (Error (js "Resource not found.")), [1; 2; 3]%Z).
Proof. vm_compute. split; reflexivity. Qed.


(** *** Enrichment with master data, for every order of the answers *)

Lemma remainingSteps_insert ts i t t' :
  ts !! i = Some t ->
  (remainingSteps (<[i := t']> ts) + pendingSteps t
   = remainingSteps ts + pendingSteps t')%nat.
Proof.
  revert i. induction ts as [|a ts IH]; intros [|i] Hi; try discriminate.
  - injection Hi as ->. cbn. lia.
  - change (<[S i := t']> (a :: ts)) with (a :: <[i := t']> ts).
    cbn [remainingSteps foldr]. specialize (IH i Hi). unfold remainingSteps in IH. lia.
Qed.

Lemma taskOk_insert api rs ts i r t' :
  Forall2 (taskOk api) rs ts -> rs !! i = Some r -> taskOk api r t' ->
  Forall2 (taskOk api) rs (<[i := t']> ts).
Proof.
  intros Hall Hr Ht. rewrite <- (list_insert_id rs i r Hr).
  now apply Forall2_insert.
Qed.

Lemma cacheOk_insert api cache masterId masterData :
  cacheOk api cache -> getMasterRelease api masterId = inr masterData ->
  cacheOk api (<[masterId := masterData]> cache).
Proof.
  intros Hcache Hm k v Hk. apply lookup_insert_Some in Hk as [[<- <-]|[_ Hk]];
    [exact Hm|now apply Hcache].
Qed.

Lemma getReleaseCalls_app cs cs' :
  getReleaseCalls (cs ++ cs') = getReleaseCalls cs ++ getReleaseCalls cs'.
Proof. apply List.filter_app. Qed.

Ltac steps_insert Ht :=
  match goal with
  | |- context [remainingSteps (<[?i := ?t']> ?ts)] =>
      let Hsteps := fresh "Hsteps" in
      pose proof (remainingSteps_insert ts i _ t' Ht) as Hsteps;
      cbn [pendingSteps] in Hsteps; lia
  end.

(** One settled request keeps every callback in step with its release,
    keeps the cache sound, asks for no release, and leaves less to
    settle when the callback was pending. *)
Lemma resume_keeps api rs i st :
  Forall2 (taskOk api) rs (tasks st) -> cacheOk api (masterCache st) ->
  Forall2 (taskOk api) rs (tasks (resume api i st))
  /\ cacheOk api (masterCache (resume api i st))
  /\ getReleaseCalls (calls (resume api i st)) = getReleaseCalls (calls st)
  /\ (remainingSteps (tasks (resume api i st)) <= remainingSteps (tasks st))%nat
  /\ (forall t, tasks st !! i = Some t -> isPending t = true ->
      (remainingSteps (tasks (resume api i st)) < remainingSteps (tasks st))%nat).
Proof.
  intros Hall Hcache. unfold resume.
  destruct (tasks st !! i) as [t|] eqn:Ht.
  2: { repeat split; auto. intros t [=]. }
  destruct (Forall2_lookup_r _ _ _ _ _ Hall Ht) as (r & Hr & Hok).
  destruct t as [original|detailedRelease masterId|result].
  - cbn in Hok. subst original.
    destruct (optNumTruthy (masterIdOf r)) as [masterId|] eqn:Hmaster;
      [destruct (masterCache st !! masterId) as [cached|] eqn:Hcached|];
      cbn [setTask tasks masterCache calls];
      (repeat split;
       [eapply taskOk_insert; [exact Hall|exact Hr|]
       |exact Hcache
       |rewrite getReleaseCalls_app, app_nil_r; reflexivity
       |steps_insert Ht
       |intros t [= <-] _; steps_insert Ht]).
    + cbn. split; [reflexivity|]. exists masterId. split; [exact Hmaster|now apply Hcache].
    + cbn. split; [reflexivity|exact Hmaster].
    + cbn. split; [reflexivity|exact I].
  - cbn in Hok. destruct Hok as [-> Hmaster].
    destruct (getMasterRelease api masterId) as [e|masterData] eqn:Hfetch;
      cbn [setTask tasks masterCache calls];
      (repeat split;
       [eapply taskOk_insert; [exact Hall|exact Hr|]
       |try exact Hcache
       |rewrite getReleaseCalls_app, app_nil_r; reflexivity
       |steps_insert Ht
       |intros t [= <-] _; steps_insert Ht]).
    + cbn. split; [reflexivity|exact I].
    + cbn. split; [reflexivity|]. exists masterId. split; [exact Hmaster|exact Hfetch].
    + now apply cacheOk_insert.
  - repeat split; auto. intros t [= <-]. discriminate.
Qed.

Lemma firstPending_Some k ts i :
  firstPending k ts = Some i ->
  exists j t, i = (k + j)%nat /\ ts !! j = Some t /\ isPending t = true.
Proof.
  revert k. induction ts as [|t ts IH]; intros k; cbn [firstPending]; [discriminate|].
  destruct (isPending t) eqn:Hp.
  - intros [= <-]. exists 0%nat, t. repeat split; [lia|assumption].
  - intros Hi. destruct (IH _ Hi) as (j & t' & -> & Hj & Ht').
    exists (S j), t'. repeat split; [lia|assumption..].
Qed.

Lemma firstPending_None api k rs ts :
  firstPending k ts = None -> Forall2 (taskOk api) rs ts ->
  Forall2 (fun r e => release e = detailOf api r /\ masterOk api r (master e)) rs
    (omap (fun t => match t with Finished r => Some r | _ => None end) ts).
Proof.
  intros Hnone Hall. revert k Hnone.
  induction Hall as [|r t rs ts Hok Hall IH]; intros k; cbn [firstPending omap list_omap];
    [constructor|].
  destruct t as [original|detailedRelease masterId|result]; cbn [isPending];
    try discriminate.
  intros Hnone. constructor; [exact Hok|exact (IH _ Hnone)].
Qed.

Lemma foldl_resume_keeps api rs order st :
  Forall2 (taskOk api) rs (tasks st) -> cacheOk api (masterCache st) ->
  let st' := foldl (fun st i => resume api i st) st order in
  Forall2 (taskOk api) rs (tasks st')
  /\ cacheOk api (masterCache st')
  /\ getReleaseCalls (calls st') = getReleaseCalls (calls st)
  /\ (remainingSteps (tasks st') <= remainingSteps (tasks st))%nat.
Proof.
  cbn zeta. revert st. induction order as [|i order IH]; intros st Hall Hcache;
    cbn [foldl]; [repeat split; auto|].
  destruct (resume_keeps api rs i st Hall Hcache) as (Hall' & Hcache' & Hcalls & Hle & _).
  destruct (IH _ Hall' Hcache') as (? & ? & ? & ?).
  repeat split; [assumption..|congruence|lia].
Qed.

Lemma drain_keeps api rs fuel st :
  Forall2 (taskOk api) rs (tasks st) -> cacheOk api (masterCache st) ->
  (remainingSteps (tasks st) <= fuel)%nat ->
  let st' := drain api fuel st in
  Forall2 (taskOk api) rs (tasks st')
  /\ cacheOk api (masterCache st')
  /\ getReleaseCalls (calls st') = getReleaseCalls (calls st)
  /\ firstPending 0 (tasks st') = None.
Proof.
  cbn zeta. revert st. induction fuel as [|fuel IH]; intros st Hall Hcache Hfuel;
    cbn [drain].
  - repeat split; auto.
    destruct (firstPending 0 (tasks st)) as [i|] eqn:Hi; [|reflexivity].
    destruct (firstPending_Some _ _ _ Hi) as (j & t & -> & Hj & Ht).
    destruct (resume_keeps api rs j st Hall Hcache) as (_ & _ & _ & _ & Hlt).
    specialize (Hlt t Hj Ht). lia.
  - destruct (firstPending 0 (tasks st)) as [i|] eqn:Hi; [|repeat split; auto].
    destruct (firstPending_Some _ _ _ Hi) as (j & t & -> & Hj & Ht).
    destruct (resume_keeps api rs j st Hall Hcache) as (Hall' & Hcache' & Hcalls & _ & Hlt).
    specialize (Hlt t Hj Ht). cbn [Nat.add] in *.
    destruct (IH _ Hall' Hcache' ltac:(lia)) as (? & ? & ? & ?).
    repeat split; [assumption..|congruence|assumption].
Qed.

Lemma remainingSteps_start batch :
  remainingSteps (List.map AwaitRelease batch) = (2 * length batch)%nat.
Proof. induction batch as [|r batch IH]; cbn in *; [reflexivity|]. unfold remainingSteps in IH. lia. Qed.

(** One batch answers, for each of its releases and in their order, the
    details of the release with a master that [getMasterRelease]
    answers for it or none; it asks once for each of its releases. *)
Lemma runBatch_results api order batch cache calls0 :
  cacheOk api cache ->
  let '(batchResults, cache', calls') := runBatch api order batch cache calls0 in
  Forall2 (fun r e => release e = detailOf api r /\ masterOk api r (master e))
    batch batchResults
  /\ cacheOk api cache'
  /\ getReleaseCalls calls'
     = getReleaseCalls calls0 ++ List.map (fun r => CallGetRelease (releaseIdOf r)) batch.
Proof.
  intros Hcache. unfold runBatch.
  set (st0 := {| masterCache := cache; tasks := List.map AwaitRelease batch;
                 calls := calls0 ++ List.map (fun r => CallGetRelease (releaseIdOf r)) batch |}).
  assert (Hall0 : Forall2 (taskOk api) batch (tasks st0)).
  { cbn. clear. induction batch; constructor; [reflexivity|assumption]. }
  destruct (foldl_resume_keeps api batch order st0 Hall0 Hcache)
    as (Hall1 & Hcache1 & Hcalls1 & Hsteps1).
  set (st1 := foldl (fun st i => resume api i st) st0 order) in *.
  assert (Hfuel : (remainingSteps (tasks st1) <= 2 * length batch)%nat).
  { rewrite <- remainingSteps_start. exact Hsteps1. }
  destruct (drain_keeps api batch (2 * length batch) st1 Hall1 Hcache1 Hfuel)
    as (Hall2 & Hcache2 & Hcalls2 & Hdone).
  repeat split.
  - unfold results. eapply firstPending_None; eassumption.
  - exact Hcache2.
  - rewrite Hcalls2, Hcalls1. cbn [calls st0]. rewrite getReleaseCalls_app. f_equal.
    clear. induction batch as [|r batch IH]; [reflexivity|].
    cbn. unfold getReleaseCalls in IH. cbn in IH. now rewrite IH.
Qed.

Lemma enrichBatches_results api schedule fuel :
  forall batchNo releases cache calls0 enrichedReleases,
    (length releases <= fuel)%nat -> cacheOk api cache ->
    let run := enrichBatches api schedule fuel batchNo releases cache calls0
                 enrichedReleases in
    exists batchResults,
      fst run = enrichedReleases ++ batchResults
      /\ Forall2 (fun r e => release e = detailOf api r /\ masterOk api r (master e))
           releases batchResults
      /\ getReleaseCalls (snd run)
         = getReleaseCalls calls0
           ++ List.map (fun r => CallGetRelease (releaseIdOf r)) releases.
Proof.
  cbn zeta. induction fuel as [|fuel IH];
    intros batchNo releases cache calls0 enrichedReleases Hfuel Hcache.
  - destruct releases; [|cbn in Hfuel; lia]. exists []. cbn.
    rewrite !app_nil_r. repeat split. constructor.
  - destruct releases as [|r rest].
    { exists []. cbn. rewrite !app_nil_r. repeat split. constructor. }
    cbn [enrichBatches]. set (releases := r :: rest) in *.
    pose proof (runBatch_results api (schedule batchNo) (take batchSize releases)
                  cache calls0 Hcache) as Hbatch.
    destruct (runBatch api (schedule batchNo) (take batchSize releases) cache calls0)
      as [[batchResults cache'] calls'].
    destruct Hbatch as (Hres & Hcache' & Hcalls').
    assert (Hdrop : (length (drop batchSize releases) <= fuel)%nat).
    { rewrite length_drop. unfold batchSize. subst releases. cbn [length] in *. lia. }
    destruct (IH (S batchNo) (drop batchSize releases) cache' calls'
                (enrichedReleases ++ batchResults) Hdrop Hcache')
      as (more & Hfst & Hmore & Hcalls).
    exists (batchResults ++ more). repeat split.
    + rewrite Hfst. now rewrite app_assoc.
    + rewrite <- (take_drop batchSize releases). now apply Forall2_app.
    + rewrite Hcalls, Hcalls', <- app_assoc, <- List.map_app, take_drop. reflexivity.
Qed.

(** X20: whatever the order in which the requests of a batch are
    answered, and whichever of them fail, [enrichWithMasterData] answers
    one entry for each release, in the order of the releases: its
    [release] is the detailed release when [getRelease] answers and the
    given release when it fails, and its [master], when there is one,
    is what [getMasterRelease] answers for the master identifier of the
    given release (never the master of another release).  [getRelease]
    is asked for exactly once for each release, batch after batch in
    the order of the list. *)
Theorem enrichWithMasterData_results api schedule releases :
  let run := enrichWithMasterData api schedule releases in
  Forall2 (fun r e => release e = detailOf api r /\ masterOk api r (master e))
    releases (fst run)
  /\ getReleaseCalls (snd run)
     = List.map (fun r => CallGetRelease (releaseIdOf r)) releases.
Proof.
  cbn zeta. unfold enrichWithMasterData.
  destruct (enrichBatches_results api schedule (length releases) 0 releases ∅ [] []
              (le_n _)) as (out & Hfst & Hall & Hcalls).
  { intros masterId masterData Hlookup. rewrite lookup_empty in Hlookup. discriminate. }
  rewrite Hfst, Hcalls. split; [exact Hall|reflexivity].
Qed.

(** *** How often a master is asked for *)

Lemma undecided_insert masterId ts i t t' :
  ts !! i = Some t ->
  (length (List.filter (undecided masterId) (<[i := t']> ts))
   + Nat.b2n (undecided masterId t)
   = length (List.filter (undecided masterId) ts) + Nat.b2n (undecided masterId t'))%nat.
Proof.
  revert i. induction ts as [|a ts IH]; intros [|i] Hi; try discriminate.
  - injection Hi as ->. cbn [list_insert insert List.filter].
    change (<[0%nat := t']> (t :: ts)) with (t' :: ts). cbn [List.filter].
    destruct (undecided masterId t), (undecided masterId t'); cbn; lia.
  - change (<[S i := t']> (a :: ts)) with (a :: <[i := t']> ts).
    cbn [List.filter]. specialize (IH i Hi).
    destruct (undecided masterId a); cbn [length]; lia.
Qed.

Lemma masterFetches_app masterId cs cs' :
  masterFetches masterId (cs ++ cs')
  = (masterFetches masterId cs + masterFetches masterId cs')%nat.
Proof. unfold masterFetches. now rewrite List.filter_app, length_app. Qed.

(** A settled request adds a request for a master only as a callback
    that had not decided yet decides. *)
Lemma resume_fetches api masterId i st :
  (masterFetches masterId (calls (resume api i st))
   + length (List.filter (undecided masterId) (tasks (resume api i st)))
   <= masterFetches masterId (calls st)
      + length (List.filter (undecided masterId) (tasks st)))%nat.
Proof.
  unfold resume. destruct (tasks st !! i) as [t|] eqn:Ht; [|lia].
  destruct t as [original|detailedRelease masterId'|result]; [| |lia].
  - destruct (optNumTruthy (masterIdOf original)) as [masterId'|] eqn:Hmaster;
      [destruct (masterCache st !! masterId') as [cached|]|];
      cbn [setTask tasks calls]; rewrite masterFetches_app;
      match goal with
      | |- context [<[i := ?t']> (tasks st)] =>
          pose proof (undecided_insert masterId (tasks st) i _ t' Ht) as Hcount
      end;
      cbn [undecided Nat.b2n] in Hcount; unfold hasMaster in Hcount;
      rewrite Hmaster in Hcount; cbn [masterFetches List.filter length] in *;
      try lia.
    destruct (Z.eqb_spec masterId' masterId) as [->|Hne].
    + rewrite bool_decide_eq_true_2 in Hcount by reflexivity. cbn in *. lia.
    + cbn in *. lia.
  - destruct (getMasterRelease api masterId');
      cbn [setTask tasks calls]; rewrite masterFetches_app;
      match goal with
      | |- context [<[i := ?t']> (tasks st)] =>
          pose proof (undecided_insert masterId (tasks st) i _ t' Ht) as Hcount
      end;
      cbn in *; lia.
Qed.

Lemma drain_fetches api masterId fuel st :
  (masterFetches masterId (calls (drain api fuel st))
   + length (List.filter (undecided masterId) (tasks (drain api fuel st)))
   <= masterFetches masterId (calls st)
      + length (List.filter (undecided masterId) (tasks st)))%nat.
Proof.
  revert st. induction fuel as [|fuel IH]; intros st; cbn [drain]; [lia|].
  destruct (firstPending 0 (tasks st)) as [i|]; [|lia].
  pose proof (IH (resume api i st)). pose proof (resume_fetches api masterId i st). lia.
Qed.

Lemma foldl_resume_fetches api masterId order st :
  let st' := foldl (fun st i => resume api i st) st order in
  (masterFetches masterId (calls st')
   + length (List.filter (undecided masterId) (tasks st'))
   <= masterFetches masterId (calls st)
      + length (List.filter (undecided masterId) (tasks st)))%nat.
Proof.
  cbn zeta. revert st. induction order as [|i order IH]; intros st; cbn [foldl]; [lia|].
  pose proof (IH (resume api i st)). pose proof (resume_fetches api masterId i st). lia.
Qed.

Lemma runBatch_fetches api masterId order batch cache calls0 :
  (masterFetches masterId (snd (runBatch api order batch cache calls0))
   <= masterFetches masterId calls0 + length (List.filter (hasMaster masterId) batch))%nat.
Proof.
  unfold runBatch. cbn [snd].
  set (st0 := {| masterCache := cache; tasks := List.map AwaitRelease batch;
                 calls := calls0 ++ List.map (fun r => CallGetRelease (releaseIdOf r)) batch |}).
  set (st1 := foldl (fun st i => resume api i st) st0 order).
  pose proof (drain_fetches api masterId (2 * length batch) st1) as Hdrain.
  assert (Hfold : (masterFetches masterId (calls st1)
                   + length (List.filter (undecided masterId) (tasks st1))
                   <= masterFetches masterId (calls st0)
                      + length (List.filter (undecided masterId) (tasks st0)))%nat).
  { apply foldl_resume_fetches. }
  assert (Hstart : (masterFetches masterId (calls st0)
                    + length (List.filter (undecided masterId) (tasks st0))
                    = masterFetches masterId calls0
                      + length (List.filter (hasMaster masterId) batch))%nat).
  { cbn [calls tasks st0]. rewrite masterFetches_app. clear.
    induction batch as [|r batch IH]; [cbn; lia|].
    cbn [List.map List.filter undecided]. unfold masterFetches in *.
    cbn [List.filter] in *. destruct (hasMaster masterId r); cbn [length] in *; lia. }
  lia.
Qed.

Lemma enrichBatches_fetches api masterId schedule fuel :
  forall batchNo releases cache calls0 enrichedReleases,
    (masterFetches masterId
       (snd (enrichBatches api schedule fuel batchNo releases cache calls0
               enrichedReleases))
     <= masterFetches masterId calls0
        + length (List.filter (hasMaster masterId) releases))%nat.
Proof.
  induction fuel as [|fuel IH]; intros batchNo releases cache calls0 enrichedReleases;
    [destruct releases; cbn [enrichBatches snd]; lia|].
  destruct releases as [|r rest]; [cbn [enrichBatches snd]; lia|].
  cbn [enrichBatches]. set (releases := r :: rest).
  pose proof (runBatch_fetches api masterId (schedule batchNo) (take batchSize releases)
                cache calls0) as Hbatch.
  destruct (runBatch api (schedule batchNo) (take batchSize releases) cache calls0)
    as [[batchResults cache'] calls'].
  cbn [snd] in Hbatch.
  pose proof (IH (S batchNo) (drop batchSize releases) cache' calls'
                (enrichedReleases ++ batchResults)) as Hrest.
  replace (List.filter (hasMaster masterId) releases)
    with (List.filter (hasMaster masterId)
            (take batchSize releases ++ drop batchSize releases))
    by now rewrite take_drop.
  rewrite List.filter_app, length_app. lia.
Qed.

(** X21: whatever the order of the answers, [enrichWithMasterData] asks
    for a master at most as often as there are releases of that master
    in the list; a master that no release names is never asked for. *)
Theorem enrichWithMasterData_master_requests api schedule releases masterId :
  (masterFetches masterId (snd (enrichWithMasterData api schedule releases))
   <= length (List.filter (hasMaster masterId) releases))%nat.
Proof.
  unfold enrichWithMasterData.
  exact (enrichBatches_fetches api masterId schedule (length releases) 0 releases ∅ [] []).
Qed.

End DiscogsFacts.

(** ** The synchronisation run *)

Module SyncFacts.

Import CacheService SyncService.

Ltac run :=
  cbv beta iota zeta delta
    [syncFromDiscogs getVinylRecords isCacheValidM syncTry syncCatch
     cacheCollectionM checkCancelled liftEither cancelCurrentSync
     bind ret throw catch finally gets modify emit dateNow pushError
     onProgress onProgressCount setFlags setStore setErrors started
     isSync cancelSync store errors trace ticks fst snd].

(** C1: with [forceRefresh] off, a valid cache (metadata younger than
    the expiry time) and at least one cached record, [getVinylRecords]
    answers the cached records with a successful cache-hit result of
    duration 0 and no errors; it calls the Discogs service not at all
    and leaves the cache as it is. *)
Theorem getVinylRecords_cache_hit env options s metadata records :
  forceRefresh options = false ->
  getMetadata (store s) = Some metadata ->
  (clock env (ticks s) - lastSync metadata < 24 * 60 * 60 * 1000)%Z ->
  getCachedCollection (store s) = Some records ->
  records <> [] ->
  exists s',
    getVinylRecords env options s
    = (inr (records,
            {| success := true; recordsProcessed := length records;
               resultErrors := []; duration := 0; fromCache := true |}), s')
    /\ remoteCalls (trace s') = remoteCalls (trace s)
    /\ store s' = store s.
Proof.
  intros Hforce Hmeta Hage Hrecords Hne.
  destruct s as [sync cancel st errs tr n]. cbn [store ticks trace] in *.
  assert (Hvalid : isCacheValid (clock env n) st = true).
  { unfold isCacheValid. rewrite Hmeta. now apply Z.ltb_lt. }
  destruct records as [|r rest]; [congruence|].
  eexists. run. rewrite Hforce. cbn [negb]. rewrite Hmeta, Hvalid, Hrecords.
  split; [reflexivity|]. split; [|reflexivity].
  unfold remoteCalls. rewrite List.filter_app. cbn. apply app_nil_r.
Qed.

Lemma getVinylRecords_cache_hit_witness :
  exists s',
    getVinylRecords (Samples.goodEnv [])
      {| forceRefresh := false; skipMasterData := false |}
      (idle (Samples.warmStore 1699999990000))
    = (inr ([Samples.cachedRecord],
            {| success := true; recordsProcessed := 1;
               resultErrors := []; duration := 0; fromCache := true |}), s')
    /\ remoteCalls (trace s') = []
    /\ store s' = Samples.warmStore 1699999990000.
Proof.
  apply (getVinylRecords_cache_hit (Samples.goodEnv [])
           {| forceRefresh := false; skipMasterData := false |}
           (idle (Samples.warmStore 1699999990000))
           {| lastSync := 1699999990000; version := CACHE_VERSION;
              totalRecords := 1; syncDuration := 1200;
              CacheService.errors := None |}
           [Samples.cachedRecord]).
  - reflexivity.
  - reflexivity.
  - vm_compute. reflexivity.
  - reflexivity.
  - discriminate.
Defined.

(** Two calls in a row: the first fetches the collection, the second,
    issued within the expiry time, is served from the cache; once the
    clock has passed the expiry time a call fetches again. *)
Example second_call_is_served_from_cache :
  let env := Samples.goodEnv (Samples.sharedMaster 2) in
  let options := {| forceRefresh := false; skipMasterData := true |} in
  let first := getVinylRecords env options (idle emptyStore) in
  let second := getVinylRecords env options (snd first) in
  length (remoteCalls (trace (snd first))) = 2%nat
  /\ length (remoteCalls (trace (snd second))) = 2%nat
  /\ option_map (fun r => fromCache (snd r))
       (match fst second with inr r => Some r | inl _ => None end) = Some true.
Proof. vm_compute. repeat split. Qed.

Example stale_cache_is_refreshed :
  let good := Samples.goodEnv (Samples.sharedMaster 2) in
  let env :=
    {| clock := fun n => (1700000000000 + 90000000 * Z.of_nat n)%Z;
       testConnection := testConnection good;
       getAllUserCollection := getAllUserCollection good;
       cancelRequested := false;
       enrichWithMasterData := enrichWithMasterData good;
       oracleFor := oracleFor good; writeOutcome := writeOk |} in
  let options := {| forceRefresh := false; skipMasterData := true |} in
  let first := getVinylRecords env options (idle emptyStore) in
  let second := getVinylRecords env options (snd first) in
  length (remoteCalls (trace (snd second))) = 4%nat
  /\ option_map (fun r => fromCache (snd r))
       (match fst second with inr r => Some r | inl _ => None end) = Some false.
Proof. vm_compute. repeat split. Qed.

(** *** Failure of a run *)

Lemma syncFromDiscogs_started env skip s :
  isSync s = false ->
  syncFromDiscogs env skip s
  = finally (catch (syncTry env skip (fst (started env s)))
                   (syncCatch env (fst (started env s))))
      (setFlags false false) (snd (started env s)).
Proof.
  destruct s as [sync cancel st errs tr n]. cbn [isSync]. intros ->. reflexivity.
Qed.

Lemma syncCatch_result env startTime e s :
  syncCatch env startTime e s
  = (inr (fallbackRecords (store s),
          {| success := false;
             recordsProcessed := length (fallbackRecords (store s));
             resultErrors := errors s ++ [messageOr (js "Unknown sync error") e];
             duration := (clock env (ticks s) - startTime)%Z;
             fromCache := Nat.ltb 0 (length (fallbackRecords (store s))) |}),
     {| isSync := isSync s; cancelSync := cancelSync s; store := store s;
        errors := errors s ++ [messageOr (js "Unknown sync error") e];
        trace := trace s
          ++ [OnProgress
                {| phase := error; progress := 0;
                   message := js "Sync failed: "
                              ++ messageOr (js "Unknown sync error") e;
                   progressRecordsProcessed := None;
                   progressTotalRecords := None |}];
        ticks := S (ticks s) |}).
Proof.
  destruct s as [sync cancel st errs tr n]. unfold fallbackRecords. run.
  destruct (getCachedCollection st) as [[|r rest]|]; reflexivity.
Qed.

Lemma syncFromDiscogs_failed env skip s e s1 :
  isSync s = false ->
  syncTry env skip (fst (started env s)) (snd (started env s)) = (inl e, s1) ->
  let message := messageOr (js "Unknown sync error") e in
  let cached := fallbackRecords (store s1) in
  exists s2,
    syncFromDiscogs env skip s
    = (inr (cached,
            {| success := false; recordsProcessed := length cached;
               resultErrors := errors s1 ++ [message];
               duration := (clock env (ticks s1) - clock env (ticks s))%Z;
               fromCache := Nat.ltb 0 (length cached) |}), s2)
    /\ store s2 = store s1 /\ isSync s2 = false.
Proof.
  intros Hidle Htry. cbn zeta. rewrite (syncFromDiscogs_started env skip s Hidle).
  unfold finally, catch. rewrite Htry, syncCatch_result. cbn.
  eexists. split; [reflexivity|]. split; reflexivity.
Qed.

(** C2: when a phase of the run throws, [syncFromDiscogs] does not
    throw in its turn.  It answers the cached records and a result with
    [success = false] and the message of the failure appended to the
    errors gathered so far; [fromCache] tells whether there was a cached
    record to answer with. *)
Theorem syncFromDiscogs_degrades_to_cache env skip s e s1 :
  isSync s = false ->
  syncTry env skip (fst (started env s)) (snd (started env s)) = (inl e, s1) ->
  exists records result s2,
    syncFromDiscogs env skip s = (inr (records, result), s2)
    /\ success result = false
    /\ resultErrors result = errors s1 ++ [messageOr (js "Unknown sync error") e]
    /\ (forall cached,
          getCachedCollection (store s1) = Some cached -> cached <> [] ->
          records = cached /\ fromCache result = true)
    /\ (getCachedCollection (store s1) = None
        \/ getCachedCollection (store s1) = Some [] ->
        records = [] /\ fromCache result = false).
Proof.
  intros Hidle Htry.
  destruct (syncFromDiscogs_failed env skip s e s1 Hidle Htry) as (s2 & Hrun & _).
  cbn zeta in Hrun. do 3 eexists. split; [exact Hrun|]. cbn [success resultErrors fromCache].
  split; [reflexivity|]. split; [reflexivity|]. unfold fallbackRecords. split.
  - intros cached -> Hne. destruct cached; [congruence|]. split; reflexivity.
  - intros [-> | ->]; split; reflexivity.
Qed.

Lemma syncFromDiscogs_degrades_to_cache_witness :
  let env := Samples.withCollection (Samples.goodEnv [])
               (inl (NetworkError (js "timeout of 30000ms exceeded"))) false in
  exists records result s2,
    syncFromDiscogs env false (idle (Samples.warmStore 0)) = (inr (records, result), s2)
    /\ success result = false
    /\ resultErrors result = [js "timeout of 30000ms exceeded"]
    /\ records = [Samples.cachedRecord] /\ fromCache result = true.
Proof.
  cbn zeta.
  set (env := Samples.withCollection (Samples.goodEnv [])
                (inl (NetworkError (js "timeout of 30000ms exceeded"))) false).
  set (s := idle (Samples.warmStore 0)).
  destruct (syncFromDiscogs_degrades_to_cache env false s
              (NetworkError (js "timeout of 30000ms exceeded"))
              (snd (syncTry env false (fst (started env s)) (snd (started env s)))))
    as (records & result & s2 & Hrun & Hs & He & Hcached & _).
  { reflexivity. }
  { vm_compute. reflexivity. }
  exists records, result, s2. split; [exact Hrun|]. split; [exact Hs|].
  split; [rewrite He; vm_compute; reflexivity|].
  apply (Hcached [Samples.cachedRecord]); [vm_compute; reflexivity | discriminate].
Defined.

(** Each phase that can fail makes the [try] block throw: the
    connection test, the fetch, the enrichment and the cache write. *)
Example connection_failure_degrades :
  let env :=
    {| clock := clock (Samples.goodEnv []);
       testConnection :=
         {| connected := false;
            connectionMessage := js "No API token configured.";
            username := None |};
       getAllUserCollection := inr [];
       cancelRequested := false;
       enrichWithMasterData := enrichWithMasterData (Samples.goodEnv []);
       oracleFor := oracleFor (Samples.goodEnv []);
       writeOutcome := writeOk |} in
  let run := syncFromDiscogs env false (idle emptyStore) in
  option_map (fun r => (fst r, resultErrors (snd r), fromCache (snd r)))
    (match fst run with inr r => Some r | inl _ => None end)
  = Some ([], [js "No API token configured."], false)
  /\ remoteCalls (trace (snd run)) = [TestConnection].
Proof. vm_compute. split; reflexivity. Qed.

Example cache_write_failure_degrades :
  let good := Samples.goodEnv (Samples.sharedMaster 2) in
  let env :=
    {| clock := clock good; testConnection := testConnection good;
       getAllUserCollection := getAllUserCollection good;
       cancelRequested := false;
       enrichWithMasterData := fun _ => inl (Error (js "queue stopped"));
       oracleFor := oracleFor good;
       writeOutcome := {| collectionWritten := false; metadataWritten := true |} |} in
  let outcome skip :=
    match fst (syncFromDiscogs env skip (idle (Samples.warmStore 0))) with
    | inr (records, result) =>
        Some (length records, success result, resultErrors result, fromCache result)
    | inl _ => None
    end in
  outcome true = Some (1%nat, false, [CACHE_FAILED], true)
  /\ outcome false = Some (1%nat, false, [js "queue stopped"], true).
Proof. vm_compute. split; reflexivity. Qed.

(** *** An empty collection *)





(** *** Progress *)

Lemma nonDecreasing_cons a l :
  nonDecreasing (a :: l) = true <->
  nonDecreasing l = true /\ match l with [] => True | b :: _ => (a <= b)%Z end.
Proof.
  destruct l as [|b l]; cbn [nonDecreasing]; [tauto|].
  change (nonDecreasing (b :: l)) with
    (match l with [] => true | c :: _ => Z.leb b c && nonDecreasing l end).
  rewrite andb_true_iff, Z.leb_le. tauto.
Qed.

Lemma sortedWithin_nil lo hi : sortedWithin lo hi [].
Proof. split; [reflexivity|constructor]. Qed.

Lemma sortedWithin_single lo hi p : (lo <= p <= hi)%Z -> sortedWithin lo hi [p].
Proof. split; [reflexivity|]. constructor; [assumption|constructor]. Qed.

Lemma sortedWithin_app lo mid hi a b :
  (lo <= mid <= hi)%Z ->
  sortedWithin lo mid a -> sortedWithin mid hi b -> sortedWithin lo hi (a ++ b).
Proof.
  intros Hmid [Ha Fa] [Hb Fb]. split.
  - induction a as [|x a IH]; [exact Hb|]. cbn [app].
    apply nonDecreasing_cons in Ha as [Ha Hx]. inversion Fa as [|? ? Hx' Fa']; subst.
    apply nonDecreasing_cons. split; [now apply IH|].
    destruct a as [|y a]; cbn [app]; [|exact Hx].
    destruct b as [|y b]; [exact I|]. inversion Fb; subst. lia.
  - apply Forall_app. split.
    + eapply Forall_impl; [exact Fa|]. cbn. intros x Hx. lia.
    + eapply Forall_impl; [exact Fb|]. cbn. intros x Hx. lia.
Qed.

Lemma emitsWithin_silent {A} lo hi (c : M A) : silent c -> emitsWithin lo hi c.
Proof.
  intros Hc s. exists []. rewrite app_nil_r. split; [apply Hc|apply sortedWithin_nil].
Qed.

Lemma emitsWithin_silent_bind {A B} lo hi (c : M A) (k : A -> M B) :
  silent c -> (forall a, emitsWithin lo hi (k a)) -> emitsWithin lo hi (bind c k).
Proof.
  intros Hc Hk s. unfold bind. specialize (Hc s).
  destruct (c s) as [[e|a] s1]; cbn [snd] in *.
  - exists []. rewrite app_nil_r. split; [exact Hc|apply sortedWithin_nil].
  - destruct (Hk a s1) as (ps & Hps & Hsorted). exists ps. now rewrite Hps, Hc.
Qed.

Lemma emitsWithin_emit_bind {B} lo hi ph p msg counts (k : unit -> M B) :
  (lo <= p <= hi)%Z ->
  emitsWithin p hi (k tt) ->
  emitsWithin lo hi
    (bind (emit (OnProgress {| phase := ph; progress := p; message := msg;
                               progressRecordsProcessed := counts;
                               progressTotalRecords := counts |})) k).
Proof.
  intros Hp Hk s. unfold bind, emit, modify.
  match goal with |- context [k tt ?s1] => destruct (Hk s1) as (ps & Hps & Hsorted) end.
  exists (p :: ps). split.
  - rewrite Hps. cbn [trace]. unfold percentages. rewrite omap_app. cbn.
    now rewrite <- app_assoc.
  - apply (sortedWithin_app lo p hi [p] ps Hp); [|exact Hsorted].
    apply sortedWithin_single. lia.
Qed.

Lemma emitsWithin_bind_assoc {A B C} lo hi (c : M A) (k1 : A -> M B) (k2 : B -> M C) :
  emitsWithin lo hi (bind c (fun a => bind (k1 a) k2)) ->
  emitsWithin lo hi (bind (bind c k1) k2).
Proof.
  intros H s. destruct (H s) as (ps & Hps & Hsorted). exists ps. split; [|exact Hsorted].
  rewrite <- Hps. unfold bind. destruct (c s) as [[e|a] s1]; reflexivity.
Qed.

Lemma silent_keeps {A} (c : M A) :
  (forall s, trace (snd (c s)) = trace s) -> silent c.
Proof. intros H s. now rewrite H. Qed.

Lemma silent_ret {A} (a : A) : silent (ret a).
Proof. now apply silent_keeps. Qed.

Lemma silent_throw {A} e : silent (@throw A e).
Proof. now apply silent_keeps. Qed.

Lemma silent_gets {A} (f : State -> A) : silent (gets f).
Proof. now apply silent_keeps. Qed.

Lemma silent_dateNow env : silent (dateNow env).
Proof. now apply silent_keeps. Qed.

Lemma silent_pushError m : silent (pushError m).
Proof. now apply silent_keeps. Qed.

Lemma silent_liftEither {A} (r : exn + A) : silent (liftEither r).
Proof. apply silent_keeps. now destruct r. Qed.

Lemma silent_checkCancelled : silent checkCancelled.
Proof. apply silent_keeps. intros s. unfold checkCancelled, bind, gets. now destruct (cancelSync s). Qed.

Lemma silent_cancel env :
  silent (modify (fun s => if cancelRequested env then cancelCurrentSync s else s)).
Proof.
  apply silent_keeps. intros s. unfold modify, cancelCurrentSync. cbn [snd].
  destruct (cancelRequested env); [|reflexivity]. now destruct (isSync s).
Qed.

Lemma silent_cacheCollectionM env records d errs :
  silent (cacheCollectionM env records d errs).
Proof.
  apply silent_keeps. intros s. unfold cacheCollectionM, bind, dateNow.
  destruct (cacheCollection _ _ _ _ _ _) as [r st]. reflexivity.
Qed.

Lemma silent_remote e : isRemote e = true -> silent (emit e).
Proof.
  intros He s. unfold emit, modify. cbn [snd trace]. unfold percentages.
  rewrite omap_app. destruct e; [discriminate| | |]; cbn; apply app_nil_r.
Qed.

Lemma silent_if {A} (b : bool) (c1 c2 : M A) :
  silent c1 -> silent c2 -> silent (if b then c1 else c2).
Proof. now destruct b. Qed.

Create HintDb silent.

#[local] Hint Resolve silent_ret silent_throw silent_gets silent_dateNow
  silent_pushError silent_liftEither silent_checkCancelled silent_cancel
  silent_cacheCollectionM silent_remote silent_if : silent.

Ltac step :=
  first
    [ apply emitsWithin_emit_bind; [lia|]
    | apply emitsWithin_silent_bind; [solve [auto with silent]|intros ?]
    | apply emitsWithin_bind_assoc
    | apply emitsWithin_silent; solve [auto with silent] ].

Lemma syncTry_emits env skip startTime : emitsWithin 0 100 (syncTry env skip startTime).
Proof.
  unfold syncTry, onProgress, onProgressCount.
  do 9 step. destruct skip; repeat step.
Qed.

Lemma returns_bind {A B} (P : B -> Prop) (c : M A) (k : A -> M B) :
  (forall a, returns P (k a)) -> returns P (bind c k).
Proof.
  intros Hk s b s'. unfold bind. destruct (c s) as [[e|a] s1]; [discriminate|].
  apply Hk.
Qed.

Lemma returns_ret {A} (P : A -> Prop) (a : A) : P a -> returns P (ret a).
Proof. intros Ha s a' s' [= <- _]. exact Ha. Qed.

Lemma syncTry_success env skip startTime :
  returns (fun r => success (snd r) = true) (syncTry env skip startTime).
Proof.
  unfold syncTry. repeat (apply returns_bind; intros ?). now apply returns_ret.
Qed.

Lemma syncFromDiscogs_percentages env skip s :
  isSync s = false ->
  exists ps,
    sortedWithin 0 100 ps
    /\ percentages (trace (snd (syncFromDiscogs env skip s)))
       = percentages (trace s) ++ ps
         ++ (if succeeded (fst (syncFromDiscogs env skip s)) then [] else [0%Z]).
Proof.
  intros Hidle. rewrite (syncFromDiscogs_started env skip s Hidle).
  destruct (syncTry_emits env skip (fst (started env s)) (snd (started env s)))
    as (ps & Hps & Hsorted).
  exists ps. split; [exact Hsorted|].
  pose proof (syncTry_success env skip (fst (started env s)) (snd (started env s)))
    as Hok.
  unfold finally, catch.
  destruct (syncTry env skip (fst (started env s)) (snd (started env s)))
    as [[e|[records result]] s1] eqn:Htry; cbn [snd] in Hps.
  - rewrite syncCatch_result. cbn [fst snd succeeded success setFlags trace].
    unfold percentages in *. rewrite omap_app, Hps. cbn. now rewrite <- app_assoc.
  - specialize (Hok _ _ eq_refl). cbn [snd] in Hok.
    cbn [fst snd succeeded setFlags trace]. rewrite Hok, app_nil_r. exact Hps.
Qed.

(** C8, as the specification states it, fails: the callback of a failed
    run is given the percentage 0 after the percentages of the phases
    that were completed. *)
Lemma progress_drops_to_zero_on_failure :
  ~ (forall env skip s,
       isSync s = false -> trace s = [] ->
       nonDecreasing (percentages (trace (snd (syncFromDiscogs env skip s)))) = true).
Proof.
  intros H.
  specialize (H (Samples.withCollection (Samples.goodEnv [])
                   (inl (NetworkError (js "Network Error"))) false)
                false (idle emptyStore) eq_refl eq_refl).
  vm_compute in H. discriminate.
Qed.

(** C8 (amended): the percentages that the progress callback is given
    during one run never decrease up to the last one of a run that
    succeeds; a run that fails reports the percentage 0 with its error,
    after percentages that never decrease. *)
Theorem progress_nondecreasing_until_error env skip s :
  isSync s = false ->
  exists ps,
    nonDecreasing ps = true
    /\ percentages (trace (snd (syncFromDiscogs env skip s)))
       = percentages (trace s) ++ ps
         ++ (if succeeded (fst (syncFromDiscogs env skip s)) then [] else [0%Z]).
Proof.
  intros Hidle.
  destruct (syncFromDiscogs_percentages env skip s Hidle) as (ps & [Hs _] & Hps).
  now exists ps.
Qed.

Lemma progress_nondecreasing_until_error_witness :
  exists ps,
    nonDecreasing ps = true
    /\ percentages
         (trace (snd (syncFromDiscogs (Samples.goodEnv (Samples.sharedMaster 3))
                        false (idle emptyStore))))
       = [] ++ ps ++ []
    /\ ps = [0; 10; 20; 40; 50; 60; 70; 80; 90; 100]%Z.
Proof.
  destruct (progress_nondecreasing_until_error
              (Samples.goodEnv (Samples.sharedMaster 3)) false (idle emptyStore)
              eq_refl) as (ps & Hs & Hps).
  exists ps. split; [exact Hs|]. split; [exact Hps|].
  rewrite app_nil_r in Hps.
  change (percentages (trace (idle emptyStore)) ++ ps) with ps in Hps.
  rewrite <- Hps. vm_compute. reflexivity.
Defined.

(** *** Validation within a run *)






Lemma syncTry_outcome env skip s :
  let start := started env s in
  (exists e s1, syncTry env skip (fst start) (snd start) = (inl e, s1))
  \/ (exists enriched syncDuration errs s1 metadata,
        let valid := filterValidRecords (transformAll env 0 enriched) in
        syncTry env skip (fst start) (snd start)
        = (inr (valid,
                {| success := true; recordsProcessed := length valid;
                   resultErrors := errs; duration := syncDuration;
                   fromCache := false |}), s1)
        /\ getCachedCollection (store s1) = Some valid
        /\ getMetadata (store s1) = Some metadata
        /\ totalRecords metadata = length valid
        /\ CacheService.syncDuration metadata = syncDuration).
Proof.
  cbn zeta. destruct s as [sync cancel st errs tr n]. run.
  destruct (connected (testConnection env)); cbn [negb]; [|left; eauto].
  destruct (getAllUserCollection env) as [e|releases];
    [left; destruct (cancelRequested env); eauto|].
  destruct (cancelRequested env); [left; eauto|].
  destruct releases as [|r0 rest]; cbn [length Nat.eqb]; [left; eauto|].
  destruct skip; run.
  - destruct (negb _); run; unfold cacheCollection;
      destruct (collectionWritten (writeOutcome env)),
               (metadataWritten (writeOutcome env)); cbn [andb]; run;
      try (left; eauto; fail);
      right; do 5 eexists; (split; [reflexivity|]); cbn; repeat split.
  - destruct (enrichWithMasterData env (r0 :: rest)) as [e|enriched]; run;
      [left; eauto|].
    destruct (negb _); run; unfold cacheCollection;
      destruct (collectionWritten (writeOutcome env)),
               (metadataWritten (writeOutcome env)); cbn [andb]; run;
      try (left; eauto; fail);
      right; do 5 eexists; (split; [reflexivity|]); cbn; repeat split.
Qed.
(** *** The outcome of a run *)

Lemma syncFromDiscogs_cases env skip s :
  isSync s = false ->
  exists records result s',
    syncFromDiscogs env skip s = (inr (records, result), s')
    /\ isSync s' = false /\ cancelSync s' = false
    /\ recordsProcessed result = length records
    /\ ((success result = false
         /\ resultErrors result <> []
         /\ records = fallbackRecords (store s')
         /\ fromCache result = Nat.ltb 0 (length records))
        \/ (success result = true
            /\ fromCache result = false
            /\ getCachedCollection (store s') = Some records
            /\ (exists metadata,
                  getMetadata (store s') = Some metadata
                  /\ totalRecords metadata = length records
                  /\ syncDuration metadata = duration result)
            /\ Forall (fun r => validateVinylRecord r = true) records)).
Proof.
  intros Hidle. rewrite (syncFromDiscogs_started env skip s Hidle).
  unfold finally, catch.
  destruct (syncTry_outcome env skip s)
    as [(e & s1 & Htry)|(enriched & d & errs & s1 & metadata & Htry & Hc & Hm & Hn & Hd)];
    cbn zeta in *; rewrite Htry.
  - rewrite syncCatch_result. do 3 eexists. split; [reflexivity|].
    cbn [setFlags isSync cancelSync store recordsProcessed success resultErrors fromCache].
    repeat split. left. repeat split. now destruct (errors s1).
  - do 3 eexists. split; [reflexivity|].
    cbn [setFlags isSync cancelSync store recordsProcessed success resultErrors fromCache
         duration].
    repeat split. right. repeat split; [exact Hc|now exists metadata|].
    unfold filterValidRecords. apply Forall_forall. intros r Hr.
    apply list_elem_of_In, filter_In in Hr. apply Hr.
Qed.

(** X22: a run of [syncFromDiscogs] that starts on an idle service
    never throws.  It leaves the service idle with the cancellation
    flag cleared, and counts the records it answers.  A successful run
    answers records that all pass the validation and are not from the
    cache; the cache then holds exactly these records, with metadata
    that counts them.  A failed run reports at least one error and
    answers what the cache holds (nothing when the cache is empty). *)
Theorem syncFromDiscogs_outcome env skip s :
  isSync s = false ->
  exists records result s',
    syncFromDiscogs env skip s = (inr (records, result), s')
    /\ isSync s' = false /\ cancelSync s' = false
    /\ recordsProcessed result = length records
    /\ (success result = true ->
        fromCache result = false
        /\ getCachedCollection (store s') = Some records
        /\ (exists metadata,
              getMetadata (store s') = Some metadata
              /\ totalRecords metadata = length records
              /\ syncDuration metadata = duration result)
        /\ Forall (fun r => validateVinylRecord r = true) records)
    /\ (success result = false ->
        resultErrors result <> []
        /\ records = fallbackRecords (store s')
        /\ fromCache result = Nat.ltb 0 (length records)).
Proof.
  intros Hidle.
  destruct (syncFromDiscogs_cases env skip s Hidle)
    as (records & result & s' & Hrun & Hsync & Hcancel & Hcount & Hcases).
  exists records, result, s'. repeat split; try assumption.
  - destruct Hcases as [(Hs & _)|(_ & Hf & _)]; [congruence|exact Hf].
  - destruct Hcases as [(Hs & _)|(_ & _ & Hc & _)]; [congruence|exact Hc].
  - destruct Hcases as [(Hs & _)|(_ & _ & _ & Hm & _)]; [congruence|exact Hm].
  - destruct Hcases as [(Hs & _)|(_ & _ & _ & _ & Hv)]; [congruence|exact Hv].
  - destruct Hcases as [(_ & He & _)|(Hs & _)]; [exact He|congruence].
  - destruct Hcases as [(_ & _ & Hr & _)|(Hs & _)]; [exact Hr|congruence].
  - destruct Hcases as [(_ & _ & _ & Hf)|(Hs & _)]; [exact Hf|congruence].
Qed.

Lemma syncFromDiscogs_outcome_witness :
  exists records result s',
    syncFromDiscogs (Samples.goodEnv (Samples.sharedMaster 2)) false (idle emptyStore)
    = (inr (records, result), s')
    /\ isSync s' = false /\ cancelSync s' = false
    /\ recordsProcessed result = length records
    /\ (success result = true ->
        fromCache result = false
        /\ getCachedCollection (store s') = Some records
        /\ (exists metadata,
              getMetadata (store s') = Some metadata
              /\ totalRecords metadata = length records
              /\ syncDuration metadata = duration result)
        /\ Forall (fun r => validateVinylRecord r = true) records)
    /\ (success result = false ->
        resultErrors result <> []
        /\ records = fallbackRecords (store s')
        /\ fromCache result = Nat.ltb 0 (length records)).
Proof.
  exact (syncFromDiscogs_outcome (Samples.goodEnv (Samples.sharedMaster 2)) false
           (idle emptyStore) eq_refl).
Defined.

(** X23: after a successful run that answered at least one record, a
    call of [getVinylRecords] without [forceRefresh], made before the
    cache written by that run is 24 hours old, answers the same records
    from the cache: it calls the Discogs service not at all. *)
Theorem getVinylRecords_after_sync env skip s env' options records result s' :
  isSync s = false ->
  syncFromDiscogs env skip s = (inr (records, result), s') ->
  success result = true ->
  records <> [] ->
  forceRefresh options = false ->
  (forall metadata,
     getMetadata (store s') = Some metadata ->
     (clock env' (ticks s') - lastSync metadata < 24 * 60 * 60 * 1000)%Z) ->
  exists s'',
    getVinylRecords env' options s'
    = (inr (records,
            {| success := true; recordsProcessed := length records;
               resultErrors := []; duration := 0; fromCache := true |}), s'')
    /\ remoteCalls (trace s'') = remoteCalls (trace s')
    /\ store s'' = store s'.
Proof.
  intros Hidle Hrun Hok Hne Hforce Hage.
  destruct (syncFromDiscogs_cases env skip s Hidle)
    as (records' & result' & s1 & Hrun' & _ & _ & _ & Hcases).
  rewrite Hrun in Hrun'. injection Hrun' as <- <- <-.
  destruct Hcases as [(Hs & _)|(_ & _ & Hrecords & (metadata & Hmeta & _) & _)];
    [congruence|].
  specialize (Hage metadata Hmeta).
  destruct s' as [sync cancel st errs tr n]. cbn [store ticks trace] in *.
  assert (Hvalid : isCacheValid (clock env' n) st = true).
  { unfold isCacheValid. rewrite Hmeta. now apply Z.ltb_lt. }
  destruct records as [|r rest]; [congruence|].
  eexists. run. rewrite Hforce. cbn [negb]. rewrite Hmeta, Hvalid, Hrecords.
  split; [reflexivity|]. split; [|reflexivity].
  unfold remoteCalls. rewrite List.filter_app. cbn. apply app_nil_r.
Qed.

Lemma getVinylRecords_after_sync_witness :
  let env := Samples.goodEnv (Samples.sharedMaster 2) in
  let options := {| forceRefresh := false; skipMasterData := true |} in
  let first := syncFromDiscogs env true (idle emptyStore) in
  let records := match fst first with inr (records, _) => records | inl _ => [] end in
  length records = 2%nat
  /\ exists s'',
       getVinylRecords env options (snd first)
       = (inr (records,
               {| success := true; recordsProcessed := length records;
                  resultErrors := []; duration := 0; fromCache := true |}), s'')
       /\ remoteCalls (trace s'') = remoteCalls (trace (snd first))
       /\ store s'' = store (snd first).
Proof.
  cbn zeta. split; [vm_compute; reflexivity|].
  set (env := Samples.goodEnv (Samples.sharedMaster 2)).
  set (first := syncFromDiscogs env true (idle emptyStore)).
  apply (getVinylRecords_after_sync env true (idle emptyStore) env
           {| forceRefresh := false; skipMasterData := true |}
           (match fst first with inr (records, _) => records | inl _ => [] end)
           (match fst first with
            | inr (_, result) => result
            | inl _ => {| success := false; recordsProcessed := 0; resultErrors := [];
                          duration := 0; fromCache := false |}
            end)
           (snd first)).
  - reflexivity.
  - vm_compute. reflexivity.
  - vm_compute. reflexivity.
  - vm_compute. discriminate.
  - reflexivity.
  - intros metadata Hmeta. vm_compute in Hmeta. injection Hmeta as <-.
    vm_compute. reflexivity.
Defined.

(** X24: a run that is cancelled while the collection is being fetched
    throws the fetched releases away, whatever they are: it fails with
    the single error of the cancellation, answers what the cache holds,
    leaves the cache as it was and asks for no master data.  The
    cancellation does not outlive the run. *)
Theorem syncFromDiscogs_cancelled env skip s releases :
  isSync s = false ->
  connected (testConnection env) = true ->
  cancelRequested env = true ->
  getAllUserCollection env = inr releases ->
  let cached := fallbackRecords (store s) in
  exists s',
    syncFromDiscogs env skip s
    = (inr (cached,
            {| success := false; recordsProcessed := length cached;
               resultErrors := [CANCELLED];
               duration := (clock env (S (ticks s)) - clock env (ticks s))%Z;
               fromCache := Nat.ltb 0 (length cached) |}), s')
    /\ store s' = store s
    /\ isSync s' = false /\ cancelSync s' = false
    /\ remoteCalls (trace s')
       = remoteCalls (trace s) ++ [TestConnection; GetAllUserCollection].
Proof.
  intros Hidle Hconn Hcancel Hfetch. cbn zeta.
  rewrite (syncFromDiscogs_started env skip s Hidle). unfold finally, catch.
  assert (Htry : exists s1,
    syncTry env skip (fst (started env s)) (snd (started env s))
    = (inl (Error CANCELLED), s1)
    /\ store s1 = store s /\ errors s1 = [] /\ ticks s1 = S (ticks s)
    /\ remoteCalls (trace s1)
       = remoteCalls (trace s) ++ [TestConnection; GetAllUserCollection]).
  { destruct s as [sync cancel st errs tr n]. run. rewrite Hconn, Hfetch, Hcancel.
    cbn [negb]. eexists. split; [reflexivity|]. repeat split.
    cbn [trace]. unfold remoteCalls. rewrite !List.filter_app. cbn.
    rewrite !app_nil_r, <- !app_assoc. reflexivity. }
  destruct Htry as (s1 & Htry & Hstore & Herrs & Hticks & Hcalls).
  rewrite Htry, syncCatch_result. rewrite Hstore, Herrs, Hticks.
  eexists. split; [reflexivity|].
  cbn [setFlags store isSync cancelSync trace]. repeat split.
  unfold remoteCalls in *. rewrite List.filter_app, Hcalls. cbn. apply app_nil_r.
Qed.

Lemma syncFromDiscogs_cancelled_witness :
  let good := Samples.goodEnv (Samples.sharedMaster 2) in
  let env :=
    {| clock := clock good; testConnection := testConnection good;
       getAllUserCollection := getAllUserCollection good;
       cancelRequested := true;
       enrichWithMasterData := enrichWithMasterData good;
       oracleFor := oracleFor good; writeOutcome := writeOk |} in
  exists s',
    fst (syncFromDiscogs env false (idle (Samples.warmStore 1699999990000)))
    = inr ([Samples.cachedRecord],
           {| success := false; recordsProcessed := 1;
              resultErrors := [CANCELLED];
              duration := (clock env 1 - clock env 0)%Z; fromCache := true |})
    /\ store s' = Samples.warmStore 1699999990000.
Proof.
  cbn zeta.
  set (good := Samples.goodEnv (Samples.sharedMaster 2)).
  set (env :=
    {| clock := clock good; testConnection := testConnection good;
       getAllUserCollection := getAllUserCollection good;
       cancelRequested := true;
       enrichWithMasterData := enrichWithMasterData good;
       oracleFor := oracleFor good; writeOutcome := writeOk |}).
  destruct (syncFromDiscogs_cancelled env false (idle (Samples.warmStore 1699999990000))
              (Samples.sharedMaster 2) eq_refl eq_refl eq_refl eq_refl)
    as (s' & Hrun & Hstore & _).
  exists s'. split; [|exact Hstore]. rewrite Hrun. reflexivity.
Defined.

(** *** The calls of the Discogs service *)

Lemma syncTry_remote env skip s :
  let start := started env s in
  remoteCalls (trace (snd (syncTry env skip (fst start) (snd start))))
  = remoteCalls (trace s)
    ++ TestConnection
       :: (if connected (testConnection env) then
             GetAllUserCollection
             :: match getAllUserCollection env with
                | inr ((_ :: _) as releases) =>
                    if cancelRequested env || skip then []
                    else [EnrichWithMasterData releases]
                | _ => []
                end
           else []).
Proof.
  cbn zeta. destruct s as [sync cancel st errs tr n]. run.
  destruct (connected (testConnection env)); cbn [negb].
  2: { unfold remoteCalls. rewrite !List.filter_app. cbn.
       now rewrite !app_nil_r, <- ?app_assoc. }
  destruct (getAllUserCollection env) as [e|releases].
  { destruct (cancelRequested env); unfold remoteCalls; rewrite !List.filter_app; cbn;
      now rewrite !app_nil_r, <- ?app_assoc. }
  destruct (cancelRequested env); cbn [orb].
  { destruct releases; unfold remoteCalls; rewrite !List.filter_app; cbn;
      now rewrite !app_nil_r, <- ?app_assoc. }
  destruct releases as [|r0 rest]; cbn [length Nat.eqb].
  { unfold remoteCalls. rewrite !List.filter_app. cbn.
    now rewrite !app_nil_r, <- ?app_assoc. }
  destruct skip; run.
  - destruct (negb _); run; unfold cacheCollection;
      destruct (collectionWritten (writeOutcome env)),
               (metadataWritten (writeOutcome env)); cbn [andb]; run;
      unfold remoteCalls; rewrite !List.filter_app; cbn;
      now rewrite !app_nil_r, <- ?app_assoc.
  - destruct (enrichWithMasterData env (r0 :: rest)) as [e|enriched]; run.
    { unfold remoteCalls. rewrite !List.filter_app. cbn.
      now rewrite !app_nil_r, <- ?app_assoc. }
    destruct (negb _); run; unfold cacheCollection;
      destruct (collectionWritten (writeOutcome env)),
               (metadataWritten (writeOutcome env)); cbn [andb]; run;
      unfold remoteCalls; rewrite !List.filter_app; cbn;
      now rewrite !app_nil_r, <- ?app_assoc.
Qed.

(** X25: a run calls the Discogs service in one fixed order and each
    of its operations at most once: always the connection test; the
    collection only when the test succeeds; the master data only for a
    collection that was fetched, is not empty and was not cancelled,
    and never when master data is to be skipped. *)
Theorem syncFromDiscogs_remote_calls env skip s :
  isSync s = false ->
  remoteCalls (trace (snd (syncFromDiscogs env skip s)))
  = remoteCalls (trace s)
    ++ TestConnection
       :: (if connected (testConnection env) then
             GetAllUserCollection
             :: match getAllUserCollection env with
                | inr ((_ :: _) as releases) =>
                    if cancelRequested env || skip then []
                    else [EnrichWithMasterData releases]
                | _ => []
                end
           else []).
Proof.
  intros Hidle. rewrite (syncFromDiscogs_started env skip s Hidle).
  pose proof (syncTry_remote env skip s) as Htry. cbn zeta in Htry.
  unfold finally, catch.
  destruct (syncTry env skip (fst (started env s)) (snd (started env s)))
    as [[e|a] s1]; cbn [snd] in *.
  - rewrite syncCatch_result. cbn [snd setFlags trace].
    unfold remoteCalls in *. rewrite List.filter_app, Htry. cbn. apply app_nil_r.
  - exact Htry.
Qed.

Lemma syncFromDiscogs_remote_calls_witness :
  let env := Samples.goodEnv (Samples.sharedMaster 2) in
  remoteCalls (trace (snd (syncFromDiscogs env false (idle emptyStore))))
  = [TestConnection; GetAllUserCollection; EnrichWithMasterData (Samples.sharedMaster 2)]
  /\ remoteCalls (trace (snd (syncFromDiscogs env true (idle emptyStore))))
     = [TestConnection; GetAllUserCollection].
Proof.
  split.
  - exact (syncFromDiscogs_remote_calls (Samples.goodEnv (Samples.sharedMaster 2)) false
             (idle emptyStore) eq_refl).
  - exact (syncFromDiscogs_remote_calls (Samples.goodEnv (Samples.sharedMaster 2)) true
             (idle emptyStore) eq_refl).
Defined.

(** X26: while a run is in progress, a call of [getVinylRecords] is
    either served from the cache or rejected with the error of a run in
    progress; whichever it is, it calls the Discogs service not at all,
    leaves the cache as it is and does not disturb the run in progress
    (its flags stay as they are). *)
Theorem getVinylRecords_while_syncing env options s :
  isSync s = true ->
  let run := getVinylRecords env options s in
  remoteCalls (trace (snd run)) = remoteCalls (trace s)
  /\ store (snd run) = store s
  /\ isSync (snd run) = true
  /\ cancelSync (snd run) = cancelSync s
  /\ (fst run = inl (Error (js "Sync already in progress"))
      \/ exists records result,
           fst run = inr (records, result)
           /\ success result = true /\ fromCache result = true
           /\ getCachedCollection (store s) = Some records).
Proof.
  intros Hbusy. cbn zeta. destruct s as [sync cancel st errs tr n].
  cbn [isSync] in Hbusy. subst sync. run.
  destruct (forceRefresh options); cbn [negb]; [repeat split; now left|].
  destruct (getMetadata st) as [metadata|]; [|repeat split; now left].
  destruct (isCacheValid (clock env n) st); [|repeat split; now left].
  destruct (getCachedCollection st) as [[|r rest]|] eqn:Hrecords;
    try (repeat split; now left).
  repeat split.
  - unfold remoteCalls. rewrite List.filter_app. cbn. apply app_nil_r.
  - right. do 2 eexists. repeat split.
Qed.

Lemma getVinylRecords_while_syncing_witness :
  let busy :=
    {| isSync := true; cancelSync := false; store := emptyStore;
       errors := []; trace := []; ticks := 0 |} in
  let run :=
    getVinylRecords (Samples.goodEnv (Samples.sharedMaster 2))
      {| forceRefresh := true; skipMasterData := false |} busy in
  remoteCalls (trace (snd run)) = []
  /\ fst run = inl (Error (js "Sync already in progress")).
Proof.
  cbn zeta.
  destruct (getVinylRecords_while_syncing (Samples.goodEnv (Samples.sharedMaster 2))
              {| forceRefresh := true; skipMasterData := false |}
              {| isSync := true; cancelSync := false; store := emptyStore;
                 errors := []; trace := []; ticks := 0 |} eq_refl)
    as (Hcalls & _).
  split; [exact Hcalls|reflexivity].
Defined.

(** *** The configuration *)

(** X27: the two checks of the configuration agree up to the
    placeholders: the service counts as configured exactly when the
    validation passes and neither the token nor the user name is the
    placeholder of the sample file.  The validation reports one error
    for each variable that is missing or empty, and passes exactly when
    it reports none. *)
Theorem isConfigured_spec e :
  isConfigured (getConfigurationStatus e)
  = isValid (validateConfiguration e)
    && differsFrom (VITE_DISCOGS_PERSONAL_ACCESS_TOKEN e)
         (js "your_personal_access_token_here")
    && differsFrom (VITE_DISCOGS_USERNAME e) (js "your_username_here")
  /\ length (validationErrors (validateConfiguration e))
     = length (List.filter (fun value => negb (isSet value))
                 [VITE_DISCOGS_PERSONAL_ACCESS_TOKEN e; VITE_DISCOGS_USERNAME e;
                  VITE_DISCOGS_USER_AGENT e])
  /\ (isValid (validateConfiguration e) = true
      <-> validationErrors (validateConfiguration e) = []).
Proof.
  unfold getConfigurationStatus, validateConfiguration.
  cbn [isConfigured isValid validationErrors List.filter].
  destruct (isSet (VITE_DISCOGS_PERSONAL_ACCESS_TOKEN e)),
           (isSet (VITE_DISCOGS_USERNAME e)),
           (isSet (VITE_DISCOGS_USER_AGENT e));
    cbn [negb app length Nat.eqb andb];
    destruct (differsFrom (VITE_DISCOGS_PERSONAL_ACCESS_TOKEN e)
                (js "your_personal_access_token_here")),
             (differsFrom (VITE_DISCOGS_USERNAME e) (js "your_username_here"));
    repeat split; try reflexivity; try discriminate.
Qed.

(** The placeholder of the sample file passes the validation, and is
    yet not a configuration. *)
Example placeholder_is_valid_but_not_configured :
  let e := {| VITE_DISCOGS_PERSONAL_ACCESS_TOKEN := Some (js "your_personal_access_token_here");
              VITE_DISCOGS_USERNAME := Some (js "miles");
              VITE_DISCOGS_USER_AGENT := Some (js "AnalogVibes/1.0") |} in
  isValid (validateConfiguration e) = true
  /\ isConfigured (getConfigurationStatus e) = false.
Proof. vm_compute. split; reflexivity. Qed.

End SyncFacts.

(** ** Numbers as text *)

Module NumberFacts.

Import Decimal.

Lemma js_inj a b : js a = js b -> a = b.
Proof.
  unfold js. revert b. induction a as [|x a IH]; destruct b as [|y b]; cbn;
    try discriminate; [reflexivity|].
  intros [= Hxy Hab]. f_equal; [|now apply IH].
  rewrite <- (ascii_N_embedding x), <- (ascii_N_embedding y). now rewrite Hxy.
Qed.

Lemma to_int_not_nil n : Z.to_int n <> Pos Nil /\ Z.to_int n <> Neg Nil.
Proof.
  destruct n as [|p|p]; cbn; split; try discriminate;
    intros [= H]; now apply (DecimalPos.Unsigned.to_uint_nonnil p).
Qed.

Lemma toString_inj a b : toString a = toString b -> a = b.
Proof.
  unfold toString. intros H. apply js_inj in H.
  apply DecimalZ.to_int_inj.
  destruct (to_int_not_nil a) as [Ha1 Ha2], (to_int_not_nil b) as [Hb1 Hb2].
  pose proof (NilZero.isi _ Ha1 Ha2) as Ea. pose proof (NilZero.isi _ Hb1 Hb2) as Eb.
  rewrite H in Ea. congruence.
Qed.

Lemma uint_digits d : Forall (fun c => isDigit c = true) (js (NilEmpty.string_of_uint d)).
Proof. induction d; cbn; constructor; auto. Qed.

Lemma uint_value d : forall d',
  digitsValue (Z.of_N (DecimalPos.Unsigned.of_lu d')) (js (NilEmpty.string_of_uint d))
  = Z.of_N (DecimalPos.Unsigned.of_lu (revapp d d')).
Proof.
  induction d; intros d'; cbn [NilEmpty.string_of_uint revapp]; [reflexivity|..];
    (change (js (String ?c ?s)) with (N_of_ascii c :: js s) ||
     idtac);
    cbn [digitsValue]; rewrite <- IHd; f_equal;
    cbn [DecimalPos.Unsigned.of_lu N_of_ascii];
    match goal with
    | |- context [N_of_digits ?l] =>
        let v := eval vm_compute in (N_of_digits l) in
        change (N_of_digits l) with v
    end; lia.
Qed.

Lemma toString_digits n :
  (0 <= n)%Z -> Forall (fun c => isDigit c = true) (toString n).
Proof.
  intros Hn. unfold toString. destruct n as [|p|p]; [repeat constructor| |lia].
  cbn [Z.to_int NilZero.string_of_int NilZero.string_of_uint].
  pose proof (DecimalPos.Unsigned.to_uint_nonnil p) as Hnil.
  assert (E : NilZero.string_of_uint (Pos.to_uint p) = NilEmpty.string_of_uint (Pos.to_uint p))
    by (unfold NilZero.string_of_uint; now destruct (Pos.to_uint p)).
  rewrite E. apply uint_digits.
Qed.

Lemma toString_value n :
  (0 <= n)%Z -> digitsValue 0 (toString n) = n.
Proof.
  intros Hn. unfold toString. destruct n as [|p|p]; [reflexivity| |lia].
  cbn [Z.to_int NilZero.string_of_int NilZero.string_of_uint].
  pose proof (DecimalPos.Unsigned.to_uint_nonnil p) as Hnil.
  assert (E : NilZero.string_of_uint (Pos.to_uint p) = NilEmpty.string_of_uint (Pos.to_uint p))
    by (unfold NilZero.string_of_uint; now destruct (Pos.to_uint p)).
  rewrite E.
  etransitivity; [exact (uint_value (Pos.to_uint p) Nil)|].
  change (revapp (Pos.to_uint p) Nil) with (rev (Pos.to_uint p)).
  rewrite <- DecimalPos.Unsigned.of_uint_alt, DecimalPos.Unsigned.of_to. reflexivity.
Qed.

End NumberFacts.

(** ** More of dataTransform *)

Module TransformMoreFacts.

Import NumberFacts.

(** *** Durations *)

Lemma split_plain sep s :
  Forall (fun c => (c =? sep) = false) s -> split sep s = [s].
Proof.
  induction 1 as [|c t Hc _ IH]; cbn [split]; [reflexivity|]. now rewrite Hc, IH.
Qed.

Lemma split_app sep a b :
  Forall (fun c => (c =? sep) = false) a ->
  split sep (a ++ sep :: b) = a :: split sep b.
Proof.
  induction 1 as [|c t Hc _ IH]; cbn [split app].
  - now rewrite N.eqb_refl.
  - now rewrite Hc, IH.
Qed.

Lemma isDigit_not_colon c : isDigit c = true -> (c =? COLON) = false.
Proof.
  unfold isDigit, COLON. intros H. apply andb_true_iff in H as [_ H].
  apply N.leb_le in H. apply N.eqb_neq. lia.
Qed.

Lemma span_digits s :
  Forall (fun c => isDigit c = true) s -> span isDigit s = (s, []).
Proof.
  induction 1 as [|c t Hc _ IH]; cbn [span]; [reflexivity|]. now rewrite Hc, IH.
Qed.

Lemma parseInt_digits s :
  s <> [] -> Forall (fun c => isDigit c = true) s ->
  parseInt s = Some (digitsValue 0 s).
Proof.
  intros Hne Hs. destruct s as [|c t]; [congruence|].
  pose proof Hs as Hall. inversion Hs as [|? ? Hc _]; subst.
  assert (Hrange : 48 <= c <= 57).
  { unfold isDigit in Hc. apply andb_true_iff in Hc as [H1 H2].
    apply N.leb_le in H1, H2. lia. }
  unfold parseInt.
  assert (Htrim : trimStart (c :: t) = c :: t).
  { unfold trimStart. cbn [span].
    replace (isSpace c) with false; [reflexivity|].
    symmetry. unfold isSpace.
    repeat (apply orb_false_iff; split);
      try (apply N.eqb_neq; lia);
      try (apply andb_false_iff; first [left; apply N.leb_gt; lia | right; apply N.leb_gt; lia]). }
  rewrite Htrim.
  replace (c =? 45) with false by (symmetry; apply N.eqb_neq; lia).
  replace (c =? 43) with false by (symmetry; apply N.eqb_neq; lia).
  rewrite (span_digits _ Hall). f_equal. lia.
Qed.

Lemma toString_cons n : toString n <> [].
Proof.
  pose proof (TransformFacts.toString_truthy n) as H. now destruct (toString n).
Qed.

Lemma parseInt_toString n : (0 <= n)%Z -> parseInt (toString n) = Some n.
Proof.
  intros Hn. rewrite parseInt_digits;
    [now rewrite toString_value | apply toString_cons | now apply toString_digits].
Qed.

Lemma pad2_digits n : (0 <= n)%Z -> Forall (fun c => isDigit c = true) (pad2 n).
Proof.
  intros Hn. unfold pad2. destruct (Nat.ltb _ 2); [constructor; [reflexivity|]|];
    now apply toString_digits.
Qed.

Lemma parseInt_pad2 n : (0 <= n)%Z -> parseInt (pad2 n) = Some n.
Proof.
  intros Hn. rewrite parseInt_digits; [|unfold pad2|now apply pad2_digits].
  - f_equal. unfold pad2. destruct (Nat.ltb _ 2); [|now apply toString_value].
    change (js "0" ++ toString n) with (48 :: toString n).
    cbn [digitsValue]. now apply toString_value.
  - destruct (Nat.ltb _ 2); [discriminate|apply toString_cons].
Qed.

Lemma parseDuration_of_formatted seconds :
  (0 <= seconds)%Z -> parseDuration (formatDuration seconds) = seconds.
Proof.
  intros Hs. unfold parseDuration, formatDuration.
  assert (Hm : (0 <= seconds / 60)%Z) by (apply Z.div_pos; lia).
  assert (Hr : (0 <= seconds mod 60 < 60)%Z) by (apply Z.mod_pos_bound; lia).
  replace (truthy (toString (seconds / 60) ++ js ":" ++ pad2 (seconds mod 60)))
    with true.
  2:{ pose proof (toString_cons (seconds / 60)).
      now destruct (toString (seconds / 60)). }
  cbn [negb]. change (js ":" ++ pad2 (seconds mod 60)) with (COLON :: pad2 (seconds mod 60)).
  rewrite split_app.
  2:{ eapply Forall_impl; [apply toString_digits; lia|]. apply isDigit_not_colon. }
  rewrite split_plain.
  2:{ eapply Forall_impl; [apply pad2_digits; lia|]. apply isDigit_not_colon. }
  rewrite parseInt_toString by lia. rewrite parseInt_pad2 by lia.
  cbv beta iota delta [from_option id].
  pose proof (Z.div_mod seconds 60 ltac:(lia)). lia.
Qed.



(** What [parseDuration] does with text that is no duration. *)
Example parseDuration_edges :
  parseDuration [] = 0%Z /\ parseDuration (js "7") = 0%Z
  /\ parseDuration (js "1:02:03") = 0%Z /\ parseDuration (js "x:30") = 30%Z
  /\ parseDuration (js " 3 : 5s") = 185%Z.
Proof. vm_compute. repeat split. Qed.

(** *** What a transformed record always has *)

Lemma orElse_truthy a b : truthy b = true -> truthy (orElse a b) = true.
Proof. unfold orElse. now destruct (truthy a) eqn:E. Qed.

Lemma randomFloor_range o i k : (0 < k)%Z -> (0 <= randomFloor o i k < k)%Z.
Proof. intros Hk. unfold randomFloor. now apply Z.mod_pos_bound. Qed.

Lemma placeholderTracks_length o i n : length (placeholderTracks o i n) = n.
Proof. revert i. induction n as [|n IH]; intros i; cbn; [reflexivity|]. now rewrite IH. Qed.

Lemma tracks_nonempty o r masterId index :
  vr_tracks (transformDiscogsVinylRelease o r masterId index) <> [].
Proof.
  cbn [transformDiscogsVinylRelease vr_tracks].
  destruct (match rel_tracklist r with
            | Some l => tracksOfTracklist o 0%Z 0%nat l
            | None => []
            end) as [|t rest]; [|discriminate].
  pose proof (randomFloor_range o 0 3 ltac:(lia)) as Hr.
  pose proof (placeholderTracks_length o 1 (Z.to_nat (4 + randomFloor o 0 3))) as Hl.
  intros E. rewrite E in Hl. cbn in Hl. lia.
Qed.

Lemma resolveGenres_nonempty gs : resolveGenres gs <> [].
Proof.
  unfold resolveGenres. now destruct (List.filter validGenre (default [] gs)).
Qed.

Lemma resolveYear_truthy r m : truthy (resolveYear r m) = true.
Proof.
  unfold resolveYear. destruct m as [master|].
  - destruct (master_year master) as [y|];
      [destruct (Z.ltb 0 y)|]; auto using TransformFacts.toString_truthy,
        TransformFacts.releaseYear_truthy.
  - destruct (extractRecordingDate r) as [date|] eqn:E;
      [eapply TransformFacts.extractRecordingDate_truthy, E
      |apply TransformFacts.releaseYear_truthy].
Qed.

Lemma record_id o r m index :
  VinylRecord.id (transformDiscogsToVinylRecord o r m index)
  = if numTruthy (rd_id (releaseDataOf r)) then toString (rd_id (releaseDataOf r))
    else js "generated-" ++ toString (dateNow o) ++ js "-" ++ toString index.
Proof. reflexivity. Qed.

(** X2: a record that [transformDiscogsToVinylRecord] has made always
    carries an identifier, a title, a year, a genre, a cover and a
    track; validation rejects it exactly when its artist or its label
    is the empty string. *)
Theorem validateVinylRecord_of_transformed o r m index :
  let record := transformDiscogsToVinylRecord o r m index in
  validateVinylRecord record
  = truthy (VinylRecord.artist record) && truthy (VinylRecord.label record).
Proof.
  cbn zeta. unfold validateVinylRecord.
  assert (Hid : truthy (VinylRecord.id (transformDiscogsToVinylRecord o r m index)) = true).
  { rewrite record_id. destruct (numTruthy _);
      [apply TransformFacts.toString_truthy|reflexivity]. }
  assert (Htitle : truthy (VinylRecord.title (transformDiscogsToVinylRecord o r m index)) = true).
  { destruct m; apply orElse_truthy; reflexivity. }
  assert (Hyear : truthy (VinylRecord.year (transformDiscogsToVinylRecord o r m index)) = true).
  { rewrite TransformFacts.year_resolveYear. apply resolveYear_truthy. }
  assert (Hgenres : Nat.ltb 0 (length (VinylRecord.genres
                       (transformDiscogsToVinylRecord o r m index))) = true).
  { apply TransformFacts.nonempty_spec. destruct m; apply resolveGenres_nonempty. }
  assert (Hcover : truthy (VinylRecord.coverUrl (transformDiscogsToVinylRecord o r m index)) = true).
  { apply orElse_truthy. reflexivity. }
  assert (Htracks : Nat.ltb 0 (length (VinylRecord.tracks
                       (transformDiscogsToVinylRecord o r m index))) = true).
  { apply TransformFacts.nonempty_spec. apply tracks_nonempty. }
  rewrite Hid, Htitle, Hyear, Hgenres, Hcover, Htracks.
  cbn [andb]. now rewrite !andb_true_r.
Qed.

(** X3: the identifier of a record is the decimal text of the
    identifier of its release data, whatever the master, the position
    and the oracle; records of releases with different identifiers
    have different identifiers. *)
Theorem record_id_one_to_one o1 o2 r1 r2 m1 m2 i1 i2 :
  rd_id (releaseDataOf r1) <> 0%Z -> rd_id (releaseDataOf r2) <> 0%Z ->
  VinylRecord.id (transformDiscogsToVinylRecord o1 r1 m1 i1)
    = toString (rd_id (releaseDataOf r1))
  /\ (VinylRecord.id (transformDiscogsToVinylRecord o1 r1 m1 i1)
      = VinylRecord.id (transformDiscogsToVinylRecord o2 r2 m2 i2)
      <-> rd_id (releaseDataOf r1) = rd_id (releaseDataOf r2)).
Proof.
  intros H1 H2. rewrite !record_id. unfold numTruthy.
  apply Z.eqb_neq in H1, H2. rewrite H1, H2. cbn [negb].
  split; [reflexivity|]. split; [apply toString_inj|now intros ->].
Qed.

Lemma record_id_one_to_one_witness :
  VinylRecord.id (Samples.recordOf (Samples.bareRelease 42 None None None)) = js "42"
  /\ VinylRecord.id (Samples.recordOf (Samples.bareRelease 42 None None None))
     <> VinylRecord.id (Samples.recordOf (Samples.bareRelease 43 (Some 1957%Z) None None)).
Proof.
  destruct (record_id_one_to_one Samples.oracle0 Samples.oracle0
              (Samples.bareRelease 42 None None None)
              (Samples.bareRelease 43 (Some 1957%Z) None None) None None 0 0) as [Hid Hiff].
  - discriminate.
  - discriminate.
  - split; [exact Hid|]. intros E. apply Hiff in E. discriminate.
Defined.

(** *** Track lists *)

Lemma tracksOfTracklist_blank o l : forall trackIndex calls,
  Forall blankTitle l -> tracksOfTracklist o trackIndex calls l = [].
Proof.
  induction l as [|t rest IH]; intros trackIndex calls H; [reflexivity|].
  inversion H as [|? ? Ht Hrest]; subst. cbn [tracksOfTracklist].
  unfold blankTitle in Ht. rewrite Ht, andb_false_r. now apply IH.
Qed.

Lemma placeholderTracks_numbers o n : forall i,
  List.map Track.number (placeholderTracks o i n) = List.map Z.of_nat (seq i n).
Proof. induction n as [|n IH]; intros i; cbn; [reflexivity|]. now rewrite IH. Qed.

Lemma placeholderTracks_durations o n : forall i,
  Forall (fun t => (150 <= parseDuration (Track.duration t) <= 510)%Z)
    (placeholderTracks o i n).
Proof.
  induction n as [|n IH]; intros i; cbn [placeholderTracks]; constructor; [|apply IH].
  cbn [Track.duration]. unfold getRandomDuration.
  pose proof (randomFloor_range o i (510 - 150 + 1) ltac:(lia)) as Hr.
  rewrite parseDuration_of_formatted by lia. lia.
Qed.

(** X4: a release that lists no track with a title (no tracklist, or
    titles that are empty or blank) gets four, five or six placeholder
    tracks: they are numbered from 1, carry the first generic names,
    and each has a duration between 2:30 and 8:30. *)
Theorem placeholder_tracks o r masterId index :
  Forall blankTitle (default [] (rel_tracklist r)) ->
  let tracks := vr_tracks (transformDiscogsVinylRelease o r masterId index) in
  exists n,
    (4 <= n <= 6)%nat
    /\ List.map Track.number tracks = List.map Z.of_nat (seq 1 n)
    /\ List.map Track.title tracks = take n genericTrackNames
    /\ Forall (fun t => (150 <= parseDuration (Track.duration t) <= 510)%Z) tracks.
Proof.
  intros Hblank. cbn zeta. cbn [transformDiscogsVinylRelease vr_tracks].
  assert (Hlisted : match rel_tracklist r with
                    | Some l => tracksOfTracklist o 0%Z 0%nat l
                    | None => []
                    end = []).
  { destruct (rel_tracklist r) as [l|]; [|reflexivity].
    now apply tracksOfTracklist_blank. }
  rewrite Hlisted.
  pose proof (randomFloor_range o 0 3 ltac:(lia)) as Hr.
  exists (Z.to_nat (4 + randomFloor o 0 3)).
  split; [lia|]. split; [apply placeholderTracks_numbers|].
  split; [|apply placeholderTracks_durations].
  assert (Hn : randomFloor o 0 3 = 0%Z \/ randomFloor o 0 3 = 1%Z \/ randomFloor o 0 3 = 2%Z)
    by lia.
  destruct Hn as [-> | [-> | ->]]; reflexivity.
Qed.

Lemma placeholder_tracks_witness :
  List.map (fun t => (Track.number t, Track.title t, Track.duration t))
    (VinylRecord.tracks (Samples.recordOf (Samples.bareRelease 42 None None None)))
  = [(1%Z, js "Opening", js "3:07"); (2%Z, js "Melody", js "3:44");
     (3%Z, js "Interlude", js "4:21"); (4%Z, js "Rhythm", js "4:58")]
  /\ exists n, (4 <= n <= 6)%nat
       /\ List.map Track.number
            (VinylRecord.tracks (Samples.recordOf (Samples.bareRelease 42 None None None)))
          = List.map Z.of_nat (seq 1 n).
Proof.
  split; [vm_compute; reflexivity|].
  destruct (placeholder_tracks Samples.oracle0 (Samples.bareRelease 42 None None None)
              (js "unknown") 0 ltac:(constructor)) as (n & Hn & Hnum & _).
  exists n. split; [exact Hn|exact Hnum].
Defined.

(** The tracks of a tracklist keep their position as their number:
    entries without a title are passed over, not renumbered. *)
Example listed_tracks_keep_their_position :
  let entry (title : string) := {| track_position := []; track_title := js title;
                        track_duration := js "5:00" |} in
  List.map (fun t => (Track.number t, Track.title t))
    (tracksOfTracklist Samples.oracle0 0 0
       [entry "Side A"%string; entry "   "%string; entry " Moment's Notice "%string])
  = [(1%Z, js "Side A"); (3%Z, js "Moment's Notice")].
Proof. vm_compute. reflexivity. Qed.

(** *** Genres *)


(** *** The fallback cover *)

Lemma toInt32_range n : (- 2 ^ 31 <= toInt32 n < 2 ^ 31)%Z.
Proof.
  unfold toInt32. pose proof (Z.mod_pos_bound (n + 2 ^ 31) (2 ^ 32) ltac:(lia)). lia.
Qed.

Lemma simpleHash_range str : (0 <= simpleHash str <= 2 ^ 31)%Z.
Proof.
  unfold simpleHash.
  assert (H : forall hash,
             (- 2 ^ 31 <= hash < 2 ^ 31)%Z ->
             (- 2 ^ 31 <= foldl hashStep hash str < 2 ^ 31)%Z).
  { induction str as [|c str IH]; intros hash Hhash; cbn [foldl]; [exact Hhash|].
    apply IH. apply toInt32_range. }
  specialize (H 0%Z ltac:(lia)). lia.
Qed.

(** X28: the hash of [simpleHash] is never negative and at most 2^31
    (the absolute value of the least 32-bit integer).  The fallback
    cover is the fixed picture with a hue from 0 to 359, a saturation
    from 60 to 99 and a brightness of 0 or -20, all three a function of
    the identifier and the title. *)
Theorem generateFallbackCover_ranges recordId recordTitle :
  (0 <= simpleHash (recordId ++ recordTitle) <= 2 ^ 31)%Z
  /\ exists hue sat brightness,
       generateFallbackCover recordId recordTitle
       = js "https://images.unsplash.com/photo-1571974599782-87624638275d?w=400&h=400&fit=crop&auto=format&q=80&hue="
         ++ toString hue ++ js "&sat=" ++ toString sat
         ++ js "&brightness=" ++ toString brightness
       /\ (0 <= hue < 360)%Z /\ (60 <= sat < 100)%Z
       /\ (brightness = 0 \/ brightness = -20)%Z.
Proof.
  pose proof (simpleHash_range (recordId ++ recordTitle)) as Hhash.
  split; [exact Hhash|]. unfold generateFallbackCover. cbv zeta.
  set (hash := simpleHash (recordId ++ recordTitle)) in *.
  exists (Z.rem hash 360),  (60 + Z.rem hash 40)%Z,
         (if Z.eqb (Z.rem hash 2) 0 then 0%Z else (-20)%Z).
  split; [reflexivity|].
  pose proof (Z.rem_bound_pos hash 360 ltac:(lia) ltac:(lia)).
  pose proof (Z.rem_bound_pos hash 40 ltac:(lia) ltac:(lia)).
  repeat split; try lia. destruct (Z.eqb (Z.rem hash 2) 0); [now left|now right].
Qed.

End TransformMoreFacts.
